(** * ArticulatedFigure: bodies, joints, contacts and the model

    A shallow embedding of [src/ArticulatedFigure.h]: the [Body], [Joint]
    and [Contact] value types with their constructors and assignment
    operators, the [Model] aggregate, and [jcalc], which the header
    declares.

    The C++ [double] is kept abstract: every definition is written over a
    type [F] carrying the arithmetic the header uses (the class [Scalar]).
    Statements that only depend on which expression is stored where hold
    for every such arithmetic, binary64 included; statements that need
    algebra (symmetry, products with zero) assume the exact laws collected
    in [ExactScalar], which rounding arithmetic does not have.  The
    canonical rationals [Qc] are the exact instance on which the
    definitions are run, the primitive floats the binary64 one. *)

From Stdlib Require Import QArith Qcanon Ring PrimFloat.
From stdpp Require Import base option list gmap.

(** ** Scalars *)

Class Scalar (F : Type) := {
  s0 : F;
  s1 : F;
  sadd : F -> F -> F;
  smul : F -> F -> F;
  ssub : F -> F -> F;
  sopp : F -> F;
  sdiv : F -> F -> F;
  seqb : F -> F -> bool;
  sltb : F -> F -> bool
}.

(** [cos] and [sin] of <cmath>. *)
Class Trig (F : Type) := {
  scos : F -> F;
  ssin : F -> F
}.

Declare Scope scalar_scope.
Delimit Scope scalar_scope with sc.
Notation "0" := s0 : scalar_scope.
Notation "1" := s1 : scalar_scope.
Infix "+" := sadd : scalar_scope.
Infix "*" := smul : scalar_scope.
Infix "-" := ssub : scalar_scope.
Infix "/" := sdiv : scalar_scope.
Notation "- x" := (sopp x) : scalar_scope.
Infix "==" := seqb (at level 70, no associativity) : scalar_scope.

(** Exact arithmetic: a commutative ring whose [==] decides equality, with
    [1 <> 0] and an irreflexive [<]. *)
Class ExactScalar (F : Type) `{Scalar F} : Prop := {
  scalar_ring : ring_theory s0 s1 sadd smul ssub sopp (@eq F);
  seqb_eq : forall x y : F, seqb x y = true <-> x = y;
  s1_neq_s0 : s1 <> s0 :> F;
  sltb_irrefl : forall x : F, sltb x x = false
}.

(** Exact sine and cosine: a point of the unit circle. *)
Class ExactTrig (F : Type) `{Scalar F} `{Trig F} : Prop := {
  trig_unit : forall q : F,
    sadd (smul (scos q) (scos q)) (smul (ssin q) (ssin q)) = s1
}.

(** ** Errors *)

Inductive Error :=
  | InvalidConstruction
  | UnsupportedJoint
  | IndexOutOfRange.

Inductive result (A : Type) :=
  | Ok (a : A)
  | Err (e : Error).
Arguments Ok {A} a.
Arguments Err {A} e.

#[global] Instance result_ret : MRet result := fun A a => Ok a.
#[global] Instance result_bind : MBind result := fun A B k r =>
  match r with
  | Ok a => k a
  | Err e => Err e
  end.

(** [assert (b)] of <assert.h>, compiled in. *)
Definition assert_ (b : bool) : result unit :=
  if b then Ok tt else Err InvalidConstruction.

(** ** Linear algebra of <cmlwrapper.h> *)

Section Algebra.
Context {F : Type} `{Scalar F}.
Local Open Scope scalar_scope.

(** Modelled from the spec: the types [Vector3d], [Matrix3d],
    [SpatialAlgebra::SpatialVector] and [SpatialAlgebra::SpatialMatrix],
    which the header uses and <cmlwrapper.h> supplies: fixed-size vectors
    and matrices of doubles with zero-based indexing and the standard
    operations. *)
Record Vector3d := V3 { v3_0 : F; v3_1 : F; v3_2 : F }.

(** [v[i]] *)
Definition vec3 (v : Vector3d) (i : nat) : F :=
  match i with
  | O => v3_0 v
  | S O => v3_1 v
  | _ => v3_2 v
  end.

(** [a == b] on vectors: all components compare equal. *)
Definition Vector3d_eqb (a b : Vector3d) : bool :=
  (v3_0 a == v3_0 b) && (v3_1 a == v3_1 b) && (v3_2 a == v3_2 b).

Record Matrix3d := M3 { m3_r0 : Vector3d; m3_r1 : Vector3d; m3_r2 : Vector3d }.

(** The nine-argument constructor, row by row. *)
Definition Matrix3d_ctor (a00 a01 a02 a10 a11 a12 a20 a21 a22 : F) : Matrix3d :=
  M3 (V3 a00 a01 a02) (V3 a10 a11 a12) (V3 a20 a21 a22).

Definition m3_row (m : Matrix3d) (i : nat) : Vector3d :=
  match i with
  | O => m3_r0 m
  | S O => m3_r1 m
  | _ => m3_r2 m
  end.

(** [m(i, j)] *)
Definition mat3 (m : Matrix3d) (i j : nat) : F := vec3 (m3_row m i) j.

Definition m3_col (m : Matrix3d) (j : nat) : Vector3d :=
  V3 (mat3 m 0 j) (mat3 m 1 j) (mat3 m 2 j).

Definition v3_dot (a b : Vector3d) : F :=
  v3_0 a * v3_0 b + v3_1 a * v3_1 b + v3_2 a * v3_2 b.

Definition v3_scale (k : F) (v : Vector3d) : Vector3d :=
  V3 (k * v3_0 v) (k * v3_1 v) (k * v3_2 v).

Definition v3_add (a b : Vector3d) : Vector3d :=
  V3 (v3_0 a + v3_0 b) (v3_1 a + v3_1 b) (v3_2 a + v3_2 b).

(** [k * m] *)
Definition m3_scale (k : F) (m : Matrix3d) : Matrix3d :=
  M3 (v3_scale k (m3_r0 m)) (v3_scale k (m3_r1 m)) (v3_scale k (m3_r2 m)).

Definition m3_transpose (m : Matrix3d) : Matrix3d :=
  M3 (m3_col m 0) (m3_col m 1) (m3_col m 2).

Definition v3_mul_m3 (r : Vector3d) (b : Matrix3d) : Vector3d :=
  V3 (v3_dot r (m3_col b 0)) (v3_dot r (m3_col b 1)) (v3_dot r (m3_col b 2)).

(** [a * b] *)
Definition m3_mul (a b : Matrix3d) : Matrix3d :=
  M3 (v3_mul_m3 (m3_r0 a) b) (v3_mul_m3 (m3_r1 a) b) (v3_mul_m3 (m3_r2 a) b).

Definition m3_add (a b : Matrix3d) : Matrix3d :=
  M3 (v3_add (m3_r0 a) (m3_r0 b)) (v3_add (m3_r1 a) (m3_r1 b))
     (v3_add (m3_r2 a) (m3_r2 b)).

Definition m3_identity : Matrix3d := Matrix3d_ctor 1 0 0 0 1 0 0 0 1.

Definition m3_diag (d : Vector3d) : Matrix3d :=
  Matrix3d_ctor (vec3 d 0) 0 0 0 (vec3 d 1) 0 0 0 (vec3 d 2).

(** *** Spatial vectors and matrices *)

Record SpatialVector :=
  SV { sv_0 : F; sv_1 : F; sv_2 : F; sv_3 : F; sv_4 : F; sv_5 : F }.

Definition sv_at (v : SpatialVector) (i : nat) : F :=
  match i with
  | 0%nat => sv_0 v
  | 1%nat => sv_1 v
  | 2%nat => sv_2 v
  | 3%nat => sv_3 v
  | 4%nat => sv_4 v
  | _ => sv_5 v
  end.

Definition sv_zero : SpatialVector := SV 0 0 0 0 0 0.

Definition sv_dot (a b : SpatialVector) : F :=
  sv_0 a * sv_0 b + sv_1 a * sv_1 b + sv_2 a * sv_2 b
  + sv_3 a * sv_3 b + sv_4 a * sv_4 b + sv_5 a * sv_5 b.

Definition sv_map (f : F -> F) (a : SpatialVector) : SpatialVector :=
  SV (f (sv_0 a)) (f (sv_1 a)) (f (sv_2 a)) (f (sv_3 a)) (f (sv_4 a)) (f (sv_5 a)).

Definition sv_map2 (f : F -> F -> F) (a b : SpatialVector) : SpatialVector :=
  SV (f (sv_0 a) (sv_0 b)) (f (sv_1 a) (sv_1 b)) (f (sv_2 a) (sv_2 b))
     (f (sv_3 a) (sv_3 b)) (f (sv_4 a) (sv_4 b)) (f (sv_5 a) (sv_5 b)).

Definition sv_add : SpatialVector -> SpatialVector -> SpatialVector := sv_map2 sadd.
Definition sv_sub : SpatialVector -> SpatialVector -> SpatialVector := sv_map2 ssub.
(** [v * k] *)
Definition sv_scale (v : SpatialVector) (k : F) : SpatialVector :=
  sv_map (fun x => x * k) v.
(** [v / k] *)
Definition sv_div (v : SpatialVector) (k : F) : SpatialVector :=
  sv_map (fun x => x / k) v.

Record SpatialMatrix := SM {
  sm_r0 : SpatialVector; sm_r1 : SpatialVector; sm_r2 : SpatialVector;
  sm_r3 : SpatialVector; sm_r4 : SpatialVector; sm_r5 : SpatialVector
}.

(** The 36-argument constructor and [set], row by row. *)
Definition SpatialMatrix_set
    (a00 a01 a02 a03 a04 a05
     a10 a11 a12 a13 a14 a15
     a20 a21 a22 a23 a24 a25
     a30 a31 a32 a33 a34 a35
     a40 a41 a42 a43 a44 a45
     a50 a51 a52 a53 a54 a55 : F) : SpatialMatrix :=
  SM (SV a00 a01 a02 a03 a04 a05)
     (SV a10 a11 a12 a13 a14 a15)
     (SV a20 a21 a22 a23 a24 a25)
     (SV a30 a31 a32 a33 a34 a35)
     (SV a40 a41 a42 a43 a44 a45)
     (SV a50 a51 a52 a53 a54 a55).

Definition sm_row (m : SpatialMatrix) (i : nat) : SpatialVector :=
  match i with
  | 0%nat => sm_r0 m
  | 1%nat => sm_r1 m
  | 2%nat => sm_r2 m
  | 3%nat => sm_r3 m
  | 4%nat => sm_r4 m
  | _ => sm_r5 m
  end.

(** [m(i, j)] *)
Definition sm_at (m : SpatialMatrix) (i j : nat) : F := sv_at (sm_row m i) j.

Definition sm_col (m : SpatialMatrix) (j : nat) : SpatialVector :=
  SV (sm_at m 0 j) (sm_at m 1 j) (sm_at m 2 j)
     (sm_at m 3 j) (sm_at m 4 j) (sm_at m 5 j).

Definition sm_map_rows (f : SpatialVector -> SpatialVector) (m : SpatialMatrix)
    : SpatialMatrix :=
  SM (f (sm_r0 m)) (f (sm_r1 m)) (f (sm_r2 m))
     (f (sm_r3 m)) (f (sm_r4 m)) (f (sm_r5 m)).

Definition sm_map2_rows (f : SpatialVector -> SpatialVector -> SpatialVector)
    (a b : SpatialMatrix) : SpatialMatrix :=
  SM (f (sm_r0 a) (sm_r0 b)) (f (sm_r1 a) (sm_r1 b)) (f (sm_r2 a) (sm_r2 b))
     (f (sm_r3 a) (sm_r3 b)) (f (sm_r4 a) (sm_r4 b)) (f (sm_r5 a) (sm_r5 b)).

Definition sm_transpose (m : SpatialMatrix) : SpatialMatrix :=
  SM (sm_col m 0) (sm_col m 1) (sm_col m 2) (sm_col m 3) (sm_col m 4) (sm_col m 5).

(** [m * v] *)
Definition sm_mul_sv (m : SpatialMatrix) (v : SpatialVector) : SpatialVector :=
  SV (sv_dot (sm_r0 m) v) (sv_dot (sm_r1 m) v) (sv_dot (sm_r2 m) v)
     (sv_dot (sm_r3 m) v) (sv_dot (sm_r4 m) v) (sv_dot (sm_r5 m) v).

Definition sv_mul_sm (r : SpatialVector) (b : SpatialMatrix) : SpatialVector :=
  SV (sv_dot r (sm_col b 0)) (sv_dot r (sm_col b 1)) (sv_dot r (sm_col b 2))
     (sv_dot r (sm_col b 3)) (sv_dot r (sm_col b 4)) (sv_dot r (sm_col b 5)).

(** [a * b] *)
Definition sm_mul (a b : SpatialMatrix) : SpatialMatrix :=
  sm_map_rows (fun r => sv_mul_sm r b) a.

Definition sm_add : SpatialMatrix -> SpatialMatrix -> SpatialMatrix :=
  sm_map2_rows sv_add.
Definition sm_sub : SpatialMatrix -> SpatialMatrix -> SpatialMatrix :=
  sm_map2_rows sv_sub.
(** [m / k] *)
Definition sm_div (m : SpatialMatrix) (k : F) : SpatialMatrix :=
  sm_map_rows (fun r => sv_div r k) m.

(** [a * b^T], the outer product of two spatial vectors. *)
Definition sv_outer (a b : SpatialVector) : SpatialMatrix :=
  SM (sv_scale b (sv_0 a)) (sv_scale b (sv_1 a)) (sv_scale b (sv_2 a))
     (sv_scale b (sv_3 a)) (sv_scale b (sv_4 a)) (sv_scale b (sv_5 a)).

Definition sm_zero : SpatialMatrix :=
  SpatialMatrix_set
    0 0 0 0 0 0
    0 0 0 0 0 0
    0 0 0 0 0 0
    0 0 0 0 0 0
    0 0 0 0 0 0
    0 0 0 0 0 0.

Definition SpatialMatrixIdentity : SpatialMatrix :=
  SpatialMatrix_set
    1 0 0 0 0 0
    0 1 0 0 0 0
    0 0 1 0 0 0
    0 0 0 1 0 0
    0 0 0 0 1 0
    0 0 0 0 0 1.

(** The four 3x3 blocks of a spatial matrix. *)
Definition sm_block (m : SpatialMatrix) (bi bj : nat) : Matrix3d :=
  let r := (3 * bi)%nat in
  let c := (3 * bj)%nat in
  Matrix3d_ctor
    (sm_at m r c) (sm_at m r (c + 1)) (sm_at m r (c + 2))
    (sm_at m (r + 1) c) (sm_at m (r + 1) (c + 1)) (sm_at m (r + 1) (c + 2))
    (sm_at m (r + 2) c) (sm_at m (r + 2) (c + 1)) (sm_at m (r + 2) (c + 2)).

Definition sm_symmetric (m : SpatialMatrix) : Prop := sm_transpose m = m.

(** [x^T * m * x] *)
Definition sm_quad (m : SpatialMatrix) (x : SpatialVector) : F :=
  sv_dot x (sm_mul_sv m x).

Definition sm_positive_definite (m : SpatialMatrix) : Prop :=
  forall x : SpatialVector, x <> sv_zero -> sltb 0 (sm_quad m x) = true.

End Algebra.

Arguments Vector3d F : clear implicits.
Arguments Matrix3d F : clear implicits.
Arguments SpatialVector F : clear implicits.
Arguments SpatialMatrix F : clear implicits.

(** ** Bodies, joints and contacts *)

Inductive JointType :=
  | JointTypeUndefined
  | JointTypeFixed
  | JointTypeRevolute.

#[global] Instance JointType_eq_dec : EqDecision JointType.
Proof. solve_decision. Defined.

Definition JointType_eqb (a b : JointType) : bool := bool_decide (a = b).

(** Objects live at addresses; [this != &body] compares them. *)
Definition addr := nat.

(** How a call of a member function declared to return a reference ends:
    with [return *this], or by reaching the closing brace with no return
    statement, in which case there is no reference to use. *)
Inductive Returned :=
  | ReturnsThis (this : addr)
  | FlowsOffEnd.

(** The end of a call of a member function declared to return a
    reference.  A call that ends in [return *this] has the store it
    leaves and that reference as its outcome.  A call that reaches the
    closing brace of such a function with no return statement has
    undefined behaviour, whether or not the caller uses a result: it has
    no outcome. *)
Definition end_of_call {A : Type} (h : A) (r : Returned) : option (A * Returned) :=
  match r with
  | ReturnsThis _ => Some (h, r)
  | FlowsOffEnd => None
  end.

Section Records.
Context {F : Type} `{Scalar F}.
Local Open Scope scalar_scope.

Record Body := mkBody {
  mSpatialInertia : SpatialMatrix F;
  mCenterOfMass : Vector3d F;
  mMass : F
}.

(** [Body()] *)
Definition Body_default : Body :=
  mkBody
    (SpatialMatrix_set
       0 0 0 0 0 0
       0 0 0 0 0 0
       0 0 0 0 0 0
       0 0 0 0 0 0
       0 0 0 0 0 0
       0 0 0 0 0 0)
    (V3 0 0 0)
    1.

(** [Body(const Body &body)] *)
Definition Body_copy (body : Body) : Body :=
  mkBody (mSpatialInertia body) (mCenterOfMass body) (mMass body).

(** [Body(mass, com, gyration_radii)] *)
Definition Body_ctor (mass : F) (com gyration_radii : Vector3d F) : Body :=
  let com_cross :=
    Matrix3d_ctor
      0 (- vec3 com 2) (vec3 com 1)
      (vec3 com 2) 0 (- vec3 com 0)
      (- vec3 com 1) (vec3 com 0) 0 in
  let parallel_axis := m3_mul (m3_scale mass com_cross) (m3_transpose com_cross) in
  let gr := gyration_radii in
  let pa := parallel_axis in
  let mcc := m3_scale mass com_cross in
  let mccT := m3_transpose mcc in
  mkBody
    (SpatialMatrix_set
       (vec3 gr 0 + mat3 pa 0 0) (mat3 pa 0 1) (mat3 pa 0 2) (mat3 mcc 0 0) (mat3 mcc 0 1) (mat3 mcc 0 2)
       (mat3 pa 1 0) (vec3 gr 1 + mat3 pa 1 1) (mat3 pa 1 2) (mat3 mcc 1 0) (mat3 mcc 1 1) (mat3 mcc 1 2)
       (mat3 pa 2 0) (mat3 pa 2 1) (vec3 gr 2 + mat3 pa 2 2) (mat3 mcc 2 0) (mat3 mcc 2 1) (mat3 mcc 2 2)
       (mat3 mccT 0 0) (mat3 mccT 0 1) (mat3 mccT 0 2) mass 0 0
       (mat3 mccT 1 0) (mat3 mccT 1 1) (mat3 mccT 1 2) 0 mass 0
       (mat3 mccT 2 0) (mat3 mccT 2 1) (mat3 mccT 2 2) 0 0 mass)
    com
    mass.

(** Writes to the public members, [b.mMass = m] and the like. *)
Definition Body_set_mSpatialInertia (x : SpatialMatrix F) (b : Body) : Body :=
  mkBody x (mCenterOfMass b) (mMass b).
Definition Body_set_mCenterOfMass (x : Vector3d F) (b : Body) : Body :=
  mkBody (mSpatialInertia b) x (mMass b).
Definition Body_set_mMass (x : F) (b : Body) : Body :=
  mkBody (mSpatialInertia b) (mCenterOfMass b) x.

(** The statements of [Body::operator=], on a store of [Body] objects:
    [this] and [body] are the addresses of the target and of the source.
    Each member is read from the source object as the store stands when
    its statement runs. *)
Definition Body_assign_statements (this body : addr) (h : gmap addr Body)
    : option (gmap addr Body) :=
  _ ← h !! this;
  _ ← h !! body;
  if bool_decide (this ≠ body) then
    src ← h !! body;
    let h1 := alter (Body_set_mSpatialInertia (mSpatialInertia src)) this h in
    src ← h1 !! body;
    let h2 := alter (Body_set_mCenterOfMass (mCenterOfMass src)) this h1 in
    src ← h2 !! body;
    let h3 := alter (Body_set_mMass (mMass src)) this h2 in
    Some h3
  else
    Some h.

(** [Body::operator=]: after its statements the call reaches the closing
    brace; the function is declared to return [Body&] and has no return
    statement on either path. *)
Definition Body_assign (this body : addr) (h : gmap addr Body)
    : option (gmap addr Body * Returned) :=
  h' ← Body_assign_statements this body h;
  end_of_call h' FlowsOffEnd.

Record Joint := mkJoint {
  mJointAxis : SpatialVector F;
  mJointType : JointType
}.

(** [Joint()] *)
Definition Joint_default : Joint :=
  mkJoint (SV 0 0 0 0 0 0) JointTypeUndefined.

(** [Joint(const Joint &joint)] *)
Definition Joint_copy (joint : Joint) : Joint :=
  mkJoint (mJointAxis joint) (mJointType joint).

Definition Joint_set_mJointAxis (x : SpatialVector F) (j : Joint) : Joint :=
  mkJoint x (mJointType j).
Definition Joint_set_mJointType (x : JointType) (j : Joint) : Joint :=
  mkJoint (mJointAxis j) x.

(** [Joint(joint_type, joint_axis)].  The two assertions abort the
    construction; past the first one the type is Revolute or Fixed, and
    each of the two branches sets the axis. *)
Definition Joint_ctor (joint_type : JointType) (joint_axis : Vector3d F)
    : result Joint :=
  _ ← assert_ (JointType_eqb joint_type JointTypeRevolute
               || JointType_eqb joint_type JointTypeFixed);
  if JointType_eqb joint_type JointTypeRevolute then
    _ ← assert_ (Vector3d_eqb joint_axis (V3 1 0 0)
                 || Vector3d_eqb joint_axis (V3 0 1 0)
                 || Vector3d_eqb joint_axis (V3 0 0 1));
    Ok (mkJoint
          (SV (vec3 joint_axis 0) (vec3 joint_axis 1) (vec3 joint_axis 2) 0 0 0)
          joint_type)
  else if JointType_eqb joint_type JointTypeFixed then
    (* the axis is set from the argument and at once overwritten *)
    let j := mkJoint
               (SV (vec3 joint_axis 0) (vec3 joint_axis 1) (vec3 joint_axis 2) 0 0 0)
               joint_type in
    Ok (Joint_set_mJointAxis (SV 0 0 0 0 0 0) j)
  else
    (* not reached: the first assertion has aborted *)
    Err InvalidConstruction.

(** [Joint::operator=], which ends in [return *this]. *)
Definition Joint_assign (this joint : addr) (h : gmap addr Joint)
    : option (gmap addr Joint * Returned) :=
  _ ← h !! this;
  _ ← h !! joint;
  if bool_decide (this ≠ joint) then
    src ← h !! joint;
    let h1 := alter (Joint_set_mJointAxis (mJointAxis src)) this h in
    src ← h1 !! joint;
    let h2 := alter (Joint_set_mJointType (mJointType src)) this h1 in
    Some (h2, ReturnsThis this)
  else
    Some (h, ReturnsThis this).

Record Contact := mkContact {
  mBodyId : nat;
  mPoint : Vector3d F
}.

(** [Contact()] *)
Definition Contact_default : Contact := mkContact 0 (V3 0 0 0).

(** [Contact(body_id, point)] *)
Definition Contact_ctor (body_id : nat) (point : Vector3d F) : Contact :=
  mkContact body_id point.

Definition Contact_set_mBodyId (x : nat) (c : Contact) : Contact :=
  mkContact x (mPoint c).
Definition Contact_set_mPoint (x : Vector3d F) (c : Contact) : Contact :=
  mkContact (mBodyId c) x.

(** [Contact::operator=], which ends in [return *this]. *)
Definition Contact_assign (this contact : addr) (h : gmap addr Contact)
    : option (gmap addr Contact * Returned) :=
  _ ← h !! this;
  _ ← h !! contact;
  if bool_decide (this ≠ contact) then
    src ← h !! contact;
    let h1 := alter (Contact_set_mBodyId (mBodyId src)) this h in
    src ← h1 !! contact;
    let h2 := alter (Contact_set_mPoint (mPoint src)) this h1 in
    Some (h2, ReturnsThis this)
  else
    Some (h, ReturnsThis this).

End Records.

Arguments Body F : clear implicits.
Arguments Joint F : clear implicits.
Arguments Contact F : clear implicits.

(** ** The model

    The members of [struct Model], in the order of the header.  The
    vectors are lists indexed by body id; index 0 is the root. *)

Module Model.
Section Def.
Context {F : Type} `{Scalar F}.

Record t := mk {
lambda : list nat;
floating_base : bool;
base_translation : Vector3d F;
base_rotation : Vector3d F;
gravity : Vector3d F;
q : list F;
qdot : list F;
qddot : list F;
tau : list F;
v : list (SpatialVector F);
a : list (SpatialVector F);
mJoints : list (Joint F);
S : list (SpatialVector F);
X_T : list (SpatialMatrix F);
c : list (SpatialVector F);
IA : list (SpatialMatrix F);
pA : list (SpatialVector F);
U : list (SpatialVector F);
d : list F;
u : list F;
X_lambda : list (SpatialMatrix F);
X_base : list (SpatialMatrix F);
mBodies : list (Body F);
mBodyOrientation : list (Matrix3d F);
mContacts : list (Contact F)
}.

End Def.
Arguments t F : clear implicits.
End Model.

(** ** Spatial vectors in halves, and rotations *)

Section Spatial.
Context {F : Type} `{Scalar F}.
Local Open Scope scalar_scope.

(** Modelled from the spec: the cross product and the halves of a spatial
    vector, in the usual convention: a spatial vector holds its angular
    part in the slots 0 to 2 and its linear part in the slots 3 to 5. *)
Definition v3_cross (a b : Vector3d F) : Vector3d F :=
  V3 (v3_1 a * v3_2 b - v3_2 a * v3_1 b)
     (v3_2 a * v3_0 b - v3_0 a * v3_2 b)
     (v3_0 a * v3_1 b - v3_1 a * v3_0 b).

(** Angular and linear halves of a spatial vector. *)
Definition sv_ang (x : SpatialVector F) : Vector3d F := V3 (sv_0 x) (sv_1 x) (sv_2 x).
Definition sv_lin (x : SpatialVector F) : Vector3d F := V3 (sv_3 x) (sv_4 x) (sv_5 x).
Definition sv_of (ang lin : Vector3d F) : SpatialVector F :=
  SV (v3_0 ang) (v3_1 ang) (v3_2 ang) (v3_0 lin) (v3_1 lin) (v3_2 lin).

(** A spatial transform that rotates by [E] and does not translate. *)
Definition sm_rot (E : Matrix3d F) : SpatialMatrix F :=
  SpatialMatrix_set
    (mat3 E 0 0) (mat3 E 0 1) (mat3 E 0 2) 0 0 0
    (mat3 E 1 0) (mat3 E 1 1) (mat3 E 1 2) 0 0 0
    (mat3 E 2 0) (mat3 E 2 1) (mat3 E 2 2) 0 0 0
    0 0 0 (mat3 E 0 0) (mat3 E 0 1) (mat3 E 0 2)
    0 0 0 (mat3 E 1 0) (mat3 E 1 1) (mat3 E 1 2)
    0 0 0 (mat3 E 2 0) (mat3 E 2 1) (mat3 E 2 2).

Definition sv_eqb (a b : SpatialVector F) : bool :=
  (sv_0 a == sv_0 b) && (sv_1 a == sv_1 b) && (sv_2 a == sv_2 b)
  && (sv_3 a == sv_3 b) && (sv_4 a == sv_4 b) && (sv_5 a == sv_5 b).

Context `{Trig F}.

(** Modelled from the spec: the rotations about the three axes, as
    transforms of coordinates. *)
Definition rotx (q : F) : Matrix3d F :=
  Matrix3d_ctor
    1 0 0
    0 (scos q) (ssin q)
    0 (- ssin q) (scos q).
Definition roty (q : F) : Matrix3d F :=
  Matrix3d_ctor
    (scos q) 0 (- ssin q)
    0 1 0
    (ssin q) 0 (scos q).
Definition rotz (q : F) : Matrix3d F :=
  Matrix3d_ctor
    (scos q) (ssin q) 0
    (- ssin q) (scos q) 0
    0 0 1.

(** The rotation about the cardinal axis a revolute joint stores, if it
    stores one. *)
Definition rot_about (axis : SpatialVector F) (q : F) : option (Matrix3d F) :=
  if sv_eqb axis (SV 1 0 0 0 0 0) then Some (rotx q)
  else if sv_eqb axis (SV 0 1 0 0 0 0) then Some (roty q)
  else if sv_eqb axis (SV 0 0 1 0 0 0) then Some (rotz q)
  else None.

End Spatial.

(** ** jcalc

    The header declares [jcalc]; its body is in no file at hand and is
    modelled from the specification. *)

Section Dynamics.
Context {F : Type} `{Scalar F} `{Trig F}.
Local Open Scope scalar_scope.

(** Modelled from the spec: [jcalc], declared in the header and defined
    elsewhere.  Revolute: [XJ] is the rotation by [q] about the stored
    cardinal axis, [S] the stored axis, [v_J = S * qdot], [c_J = 0].
    Fixed: [XJ] is the identity and [S], [v_J], [c_J] are zero.  Any
    other joint is refused, and a joint id with no joint is a lookup
    error.  The result is [(XJ, S, v_J, c_J)]. *)
Definition jcalc (model : Model.t F) (joint_id : nat) (q qdot : F)
    : result (SpatialMatrix F * SpatialVector F * SpatialVector F * SpatialVector F) :=
  match Model.mJoints model !! joint_id with
  | None => Err IndexOutOfRange
  | Some joint =>
      match mJointType joint with
      | JointTypeRevolute =>
          match rot_about (mJointAxis joint) q with
          | Some E =>
              let S := mJointAxis joint in
              Ok (sm_rot E, S, sv_scale S qdot, sv_zero)
          | None => Err UnsupportedJoint
          end
      | JointTypeFixed => Ok (SpatialMatrixIdentity, sv_zero, sv_zero, sv_zero)
      | JointTypeUndefined => Err UnsupportedJoint
      end
  end.

End Dynamics.

(** ** Vocabulary of the statements *)

Section Vocabulary.
Context {F : Type} `{Scalar F}.
Local Open Scope scalar_scope.

(** The matrix of [x |-> com x x]. *)
Definition cross_matrix (com : Vector3d F) : Matrix3d F :=
  Matrix3d_ctor
    0 (- vec3 com 2) (vec3 com 1)
    (vec3 com 2) 0 (- vec3 com 0)
    (- vec3 com 1) (vec3 com 0) 0.

Definition m3_mul_v3 (m : Matrix3d F) (x : Vector3d F) : Vector3d F :=
  V3 (v3_dot (m3_r0 m) x) (v3_dot (m3_r1 m) x) (v3_dot (m3_r2 m) x).

Definition m3_det (m : Matrix3d F) : F :=
  mat3 m 0 0 * (mat3 m 1 1 * mat3 m 2 2 - mat3 m 1 2 * mat3 m 2 1)
  - mat3 m 0 1 * (mat3 m 1 0 * mat3 m 2 2 - mat3 m 1 2 * mat3 m 2 0)
  + mat3 m 0 2 * (mat3 m 1 0 * mat3 m 2 1 - mat3 m 1 1 * mat3 m 2 0).

Definition m3_trace (m : Matrix3d F) : F := mat3 m 0 0 + mat3 m 1 1 + mat3 m 2 2.

(** The three axes a revolute joint may turn about. *)
Definition cardinal (axis : Vector3d F) : Prop :=
  axis = V3 1 0 0 \/ axis = V3 0 1 0 \/ axis = V3 0 0 1.

Context `{Trig F}.

(** [E] is a proper rotation that leaves [axis] in place and turns by
    the angle [q]. *)
Definition rotation_about (axis : Vector3d F) (q : F) (E : Matrix3d F) : Prop :=
  m3_mul E (m3_transpose E) = m3_identity
  /\ m3_det E = 1
  /\ m3_mul_v3 E axis = axis
  /\ m3_trace E = 1 + (scos q + scos q).

(** The inputs [Joint(joint_type, joint_axis)] is documented to refuse. *)
Definition invalid_joint_input (joint_type : JointType) (joint_axis : Vector3d F)
    : Prop :=
  (joint_type <> JointTypeFixed /\ joint_type <> JointTypeRevolute)
  \/ (joint_type = JointTypeRevolute /\ ~ cardinal joint_axis).

End Vocabulary.

(** ** The rationals as scalars

    Sine and cosine are taken at the angle whose half-angle tangent is the
    argument, which keeps them rational and on the unit circle: at the
    argument 1 they are the sine and cosine of a quarter turn. *)

Definition Qc_ltb (x y : Qc) : bool :=
  match (x ?= y)%Qc with
  | Lt => true
  | _ => false
  end.

#[global] Instance Qc_Scalar : Scalar Qc := {|
  s0 := 0%Qc;
  s1 := 1%Qc;
  sadd := Qcplus;
  smul := Qcmult;
  ssub := Qcminus;
  sopp := Qcopp;
  sdiv := Qcdiv;
  seqb := Qc_eq_bool;
  sltb := Qc_ltb
|}.

#[global] Instance Qc_Trig : Trig Qc := {|
  scos := fun t => ((1 - t * t) / (1 + t * t))%Qc;
  ssin := fun t => ((2 * t) / (1 + t * t))%Qc
|}.

(** ** Binary64 as scalars

    The arithmetic of [double]: the primitive floats, with their rounding,
    infinities and signed zeros. *)

#[global] Instance binary64_Scalar : Scalar float := {|
  s0 := 0%float;
  s1 := 1%float;
  sadd := PrimFloat.add;
  smul := PrimFloat.mul;
  ssub := PrimFloat.sub;
  sopp := PrimFloat.opp;
  sdiv := PrimFloat.div;
  seqb := PrimFloat.eqb;
  sltb := PrimFloat.ltb
|}.

(** [Body(0.1, (0.1, 0.2, 0.3), (1, 1, 1))], each literal the double
    nearest to it. *)
Definition tenth_body : Body float :=
  Body_ctor 0x1.999999999999ap-4%float
    (V3 0x1.999999999999ap-4 0x1.999999999999ap-3 0x1.3333333333333p-2)%float
    (V3 1 1 1)%float.

(** ** Concrete models

    One movable body on the root, every vector of the model sized for the
    two bodies, the joint frame the identity and no gravity.  The body has
    mass 1, its centre of mass at the origin and unit gyration radii, so
    its spatial inertia is the identity. *)

Definition unit_body : Body Qc := Body_ctor 1%Qc (V3 0 0 0)%Qc (V3 1 1 1)%Qc.

(** What [Joint(JointTypeRevolute, (0,0,1))] builds. *)
Definition revolute_z : Joint Qc := mkJoint (SV 0 0 1 0 0 0)%Qc JointTypeRevolute.

(** What [Joint(JointTypeFixed, axis)] builds. *)
Definition fixed_joint : Joint Qc := mkJoint sv_zero JointTypeFixed.

Definition one_body_model (root : Body Qc) (joint : Joint Qc) : Model.t Qc :=
  {| Model.lambda := [0; 0]%nat;
     Model.floating_base := false;
     Model.base_translation := V3 0%Qc 0%Qc 0%Qc;
     Model.base_rotation := V3 0%Qc 0%Qc 0%Qc;
     Model.gravity := V3 0%Qc 0%Qc 0%Qc;
     Model.q := [0%Qc; 0%Qc];
     Model.qdot := [0%Qc; 0%Qc];
     Model.qddot := [0%Qc; 0%Qc];
     Model.tau := [0%Qc; 0%Qc];
     Model.v := [sv_zero; sv_zero];
     Model.a := [sv_zero; sv_zero];
     Model.mJoints := [Joint_default; joint];
     Model.S := [sv_zero; sv_zero];
     Model.X_T := [SpatialMatrixIdentity; SpatialMatrixIdentity];
     Model.c := [sv_zero; sv_zero];
     Model.IA := [sm_zero; sm_zero];
     Model.pA := [sv_zero; sv_zero];
     Model.U := [sv_zero; sv_zero];
     Model.d := [0%Qc; 0%Qc];
     Model.u := [0%Qc; 0%Qc];
     Model.X_lambda := [SpatialMatrixIdentity; SpatialMatrixIdentity];
     Model.X_base := [SpatialMatrixIdentity; SpatialMatrixIdentity];
     Model.mBodies := [root; unit_body];
     Model.mBodyOrientation := [];
     Model.mContacts := [] |}.

(** A store with two bodies, at the addresses 0 and 1. *)
Definition two_bodies : gmap addr (Body Qc) :=
  <[0%nat := Body_default]> (<[1%nat := unit_body]> ∅).

(** ** Vocabulary of the further statements *)

(** Exact arithmetic with an order: sums and products of positive
    scalars are positive, and so is the square of a nonzero scalar. *)
Class OrderedScalar (F : Type) `{Scalar F} : Prop := {
  ordered_exact : ExactScalar F;
  sltb_add_pos : forall a b : F,
    sltb s0 a = true -> sltb s0 b = true -> sltb s0 (sadd a b) = true;
  sltb_mul_pos : forall a b : F,
    sltb s0 a = true -> sltb s0 b = true -> sltb s0 (smul a b) = true;
  sltb_square_pos : forall x : F, x <> s0 -> sltb s0 (smul x x) = true
}.

Section FurtherVocabulary.
Context {F : Type} `{Scalar F}.
Local Open Scope scalar_scope.

(** [a * b^T] *)
Definition v3_outer (a b : Vector3d F) : Matrix3d F :=
  M3 (v3_scale (v3_0 a) b) (v3_scale (v3_1 a) b) (v3_scale (v3_2 a) b).

Definition v3_sub (a b : Vector3d F) : Vector3d F :=
  V3 (v3_0 a - v3_0 b) (v3_1 a - v3_1 b) (v3_2 a - v3_2 b).

Definition m3_sub (a b : Matrix3d F) : Matrix3d F :=
  M3 (v3_sub (m3_r0 a) (m3_r0 b)) (v3_sub (m3_r1 a) (m3_r1 b))
     (v3_sub (m3_r2 a) (m3_r2 b)).

(** The velocity of the body-fixed point [p] of a body that moves with
    the spatial velocity [x]: [v + omega x p]. *)
Definition point_velocity (p : Vector3d F) (x : SpatialVector F) : Vector3d F :=
  v3_add (sv_lin x) (v3_cross (sv_ang x) p).

(** A scalar that is zero or positive. *)
Definition nonneg (a : F) : Prop := a = 0 \/ sltb 0 a = true.

(** A weighted sum of squares, [k1 * y1^2 + (k2 * y2^2 + ...)]. *)
Fixpoint wsum (l : list (F * F)) : F :=
  match l with
  | [] => 0
  | (k, y) :: rest => k * (y * y) + wsum rest
  end.

(** The expression [a = b = c] on joints: [b = c] first, then the
    assignment of the reference it returns to [a]. *)
Definition Joint_assign_chain (a b c : addr) (h : gmap addr (Joint F))
    : option (gmap addr (Joint F) * Returned) :=
  '(h1, r) ← Joint_assign b c h;
  match r with
  | ReturnsThis b' => Joint_assign a b' h1
  | FlowsOffEnd => None
  end.

End FurtherVocabulary.

(** A store with three joints, at the addresses 0, 1 and 2. *)
Definition three_joints : gmap addr (Joint Qc) :=
  <[0%nat := Joint_default]> (<[1%nat := fixed_joint]> (<[2%nat := revolute_z]> ∅)).

(** A store with two contacts, at the addresses 0 and 1. *)
Definition two_contacts : gmap addr (Contact Qc) :=
  <[0%nat := Contact_default]>
    (<[1%nat := Contact_ctor 1 (V3 0%Qc 0%Qc 1%Qc)]> ∅).

(** * Properties *)

Lemma Qc_eq_bool_iff (x y : Qc) : Qc_eq_bool x y = true <-> x = y.
Proof.
  split; [apply Qc_eq_bool_correct |].
  intros Heq. unfold Qc_eq_bool. destruct (Qcanon.Qc_eq_dec x y) as [_ | Hne]; [reflexivity |].
  contradiction.
Qed.

Lemma Qc_ltb_irrefl (x : Qc) : Qc_ltb x x = false.
Proof.
  unfold Qc_ltb. replace (x ?= x)%Qc with Eq; [reflexivity |].
  symmetry. apply Qceq_alt. reflexivity.
Qed.

Lemma Qc_square_nonneg (t : Qc) : (0 <= t * t)%Qc.
Proof.
  destruct (Qclt_le_dec t 0) as [Hneg | Hpos].
  - replace (t * t)%Qc with ((- t) * (- t))%Qc by ring.
    assert (Hle : (0 <= - t)%Qc).
    { apply Qclt_le_weak in Hneg. apply Qcopp_le_compat in Hneg. exact Hneg. }
    apply Qcmult_nonneg_nonneg; exact Hle.
  - apply Qcmult_nonneg_nonneg; exact Hpos.
Qed.

Lemma Qc_trig_unit (t : Qc) :
  ((1 - t * t) / (1 + t * t) * ((1 - t * t) / (1 + t * t))
   + 2 * t / (1 + t * t) * (2 * t / (1 + t * t)) = 1)%Qc.
Proof.
  assert (Hpos : (1 + t * t)%Qc <> 0%Qc).
  { intros Heq.
    assert (Hlt : (0 < 1 + t * t)%Qc).
    { apply Qcplus_pos_nonneg; [reflexivity | apply Qc_square_nonneg]. }
    rewrite Heq in Hlt. exact (Qclt_not_eq _ _ Hlt eq_refl). }
  field. exact Hpos.
Qed.

Lemma Qc_exact : ExactScalar Qc.
Proof.
  constructor.
  - exact Qcrt.
  - exact Qc_eq_bool_iff.
  - intros Heq. discriminate (f_equal (fun x : Qc => Qnum (this x)) Heq).
  - exact Qc_ltb_irrefl.
Qed.

Lemma Qc_exact_trig : ExactTrig Qc.
Proof. constructor. exact Qc_trig_unit. Qed.

(** Unfolds the matrix and vector operations down to scalar arithmetic. *)
Ltac la_compute :=
  cbv beta iota zeta delta
    -[s0 s1 sadd smul ssub sopp sdiv seqb sltb scos ssin].

(** Equations between matrices or vectors, entry by entry, in a ring. *)
Ltac la_ring := la_compute; f_equal; try (f_equal; ring); try ring.

(** ** Bodies and joints *)

Section BodyJointProperties.
Context {F : Type} `{Scalar F}.
Local Open Scope scalar_scope.

Lemma assert_true_inv (b : bool) : assert_ b = Ok tt -> b = true.
Proof. destruct b; [reflexivity | discriminate]. Qed.

(** C8: [Joint()] yields a joint of type [JointTypeUndefined], which is
    neither Fixed nor Revolute, with the zero axis; it cannot fail,
    whereas [Joint(joint_type, joint_axis)] refuses that very type. *)
Theorem Joint_default_is_undefined :
  mJointType (Joint_default (F := F)) = JointTypeUndefined
  /\ JointTypeUndefined <> JointTypeFixed
  /\ JointTypeUndefined <> JointTypeRevolute
  /\ mJointAxis (Joint_default (F := F)) = sv_zero
  /\ forall joint_axis : Vector3d F,
       Joint_ctor JointTypeUndefined joint_axis = Err InvalidConstruction.
Proof.
  repeat split; intros; try discriminate; reflexivity.
Qed.

(** In whatever arithmetic, [Body(mass, com, gyration_radii)] keeps its
    arguments, stores [mass * com_cross] as upper-right block and its
    transpose as lower-left block, and [mass] along the diagonal of the
    lower-right block. *)
Lemma Body_ctor_blocks_any_arithmetic (mass : F) (com gyration_radii : Vector3d F) :
  let body := Body_ctor mass com gyration_radii in
  mMass body = mass
  /\ mCenterOfMass body = com
  /\ sm_block (mSpatialInertia body) 0 1 = m3_scale mass (cross_matrix com)
  /\ sm_block (mSpatialInertia body) 1 0
     = m3_transpose (sm_block (mSpatialInertia body) 0 1)
  /\ sm_block (mSpatialInertia body) 1 1 = Matrix3d_ctor mass 0 0 0 mass 0 0 0 mass.
Proof.
  destruct com as [c0 c1 c2]. repeat split; reflexivity.
Qed.

Section Exact.
Context `{!ExactScalar F}.
Add Ring scalar_ring_inst : scalar_ring.

Lemma seqb_refl (x : F) : (x == x) = true.
Proof. apply seqb_eq. reflexivity. Qed.

Lemma seqb_neq (x y : F) : x <> y -> (x == y) = false.
Proof.
  intros Hne. destruct (x == y) eqn:E; [| reflexivity].
  apply seqb_eq in E. contradiction.
Qed.

Lemma Vector3d_eqb_eq (a b : Vector3d F) : Vector3d_eqb a b = true <-> a = b.
Proof.
  unfold Vector3d_eqb. destruct a as [a0 a1 a2], b as [b0 b1 b2]. simpl.
  rewrite !andb_true_iff, !seqb_eq. split.
  - intros [[-> ->] ->]. reflexivity.
  - intros [= -> -> ->]. auto.
Qed.

Lemma Vector3d_eqb_neq (a b : Vector3d F) : a <> b -> Vector3d_eqb a b = false.
Proof.
  intros Hne. destruct (Vector3d_eqb a b) eqn:E; [| reflexivity].
  apply Vector3d_eqb_eq in E. contradiction.
Qed.

Lemma sv_eqb_eq (a b : SpatialVector F) : sv_eqb a b = true <-> a = b.
Proof.
  unfold sv_eqb. destruct a, b. simpl.
  rewrite !andb_true_iff, !seqb_eq. split.
  - intros [[[[[-> ->] ->] ->] ->] ->]. reflexivity.
  - intros [= -> -> -> -> -> ->]. auto 10.
Qed.

Lemma cardinal_eqb (axis : Vector3d F) :
  Vector3d_eqb axis (V3 1 0 0) || Vector3d_eqb axis (V3 0 1 0)
  || Vector3d_eqb axis (V3 0 0 1) = true <-> cardinal axis.
Proof.
  unfold cardinal. rewrite !orb_true_iff, !Vector3d_eqb_eq. tauto.
Qed.

(** In exact arithmetic the stored spatial inertia is symmetric, and its
    blocks are the matrices of the parallel-axis form. *)
Lemma Body_ctor_exact_form (mass : F) (com gyration_radii : Vector3d F) :
  let I := mSpatialInertia (Body_ctor mass com gyration_radii) in
  let com_cross := cross_matrix com in
  sm_symmetric I
  /\ sm_block I 1 1 = m3_scale mass m3_identity
  /\ sm_block I 0 0
     = m3_add (m3_diag gyration_radii)
         (m3_mul (m3_scale mass com_cross) (m3_transpose com_cross)).
Proof.
  destruct com as [c0 c1 c2], gyration_radii as [g0 g1 g2].
  repeat split; unfold sm_symmetric; la_ring.
Qed.

(** C2: [Joint(joint_type, joint_axis)] fails its assertions, and so
    yields no joint, for every type other than Fixed and Revolute and
    for every Revolute axis that is not one of the three unit axes;
    Revolute with the axis (1,1,0) is such an input. *)
Theorem Joint_ctor_rejects_invalid :
  (forall (joint_type : JointType) (joint_axis : Vector3d F),
     invalid_joint_input joint_type joint_axis ->
     Joint_ctor joint_type joint_axis = Err InvalidConstruction)
  /\ Joint_ctor JointTypeRevolute (V3 1 1 0) = Err InvalidConstruction.
Proof.
  assert (Hgen : forall (joint_type : JointType) (joint_axis : Vector3d F),
             invalid_joint_input joint_type joint_axis ->
             Joint_ctor joint_type joint_axis = Err InvalidConstruction).
  { intros joint_type joint_axis [[Hf Hr] | [-> Hcard]].
    - destruct joint_type; [reflexivity | contradiction | contradiction].
    - unfold Joint_ctor. cbn.
      destruct (Vector3d_eqb joint_axis (V3 1 0 0)
                || Vector3d_eqb joint_axis (V3 0 1 0)
                || Vector3d_eqb joint_axis (V3 0 0 1)) eqn:E; [| reflexivity].
      apply cardinal_eqb in E. contradiction. }
  split; [exact Hgen |].
  apply Hgen. right. split; [reflexivity |].
  pose proof s1_neq_s0 as Hne.
  intros [Heq | [Heq | Heq]]; injection Heq; intros; congruence.
Qed.

(** C3: a Revolute joint built on a unit axis [a] stores
    [(a[0], a[1], a[2], 0, 0, 0)], a Fixed joint stores the zero
    vector whatever axis is passed, and these are the only joints the
    constructor builds. *)
Theorem Joint_ctor_stored_axis :
  (forall joint_axis : Vector3d F,
     cardinal joint_axis ->
     Joint_ctor JointTypeRevolute joint_axis
     = Ok (mkJoint
             (SV (vec3 joint_axis 0) (vec3 joint_axis 1) (vec3 joint_axis 2) 0 0 0)
             JointTypeRevolute))
  /\ (forall joint_axis : Vector3d F,
        Joint_ctor JointTypeFixed joint_axis = Ok (mkJoint sv_zero JointTypeFixed))
  /\ (forall (joint_type : JointType) (joint_axis : Vector3d F) (joint : Joint F),
        Joint_ctor joint_type joint_axis = Ok joint ->
        mJointType joint = joint_type
        /\ (joint_type = JointTypeRevolute ->
            cardinal joint_axis
            /\ mJointAxis joint
               = SV (vec3 joint_axis 0) (vec3 joint_axis 1) (vec3 joint_axis 2) 0 0 0)
        /\ (joint_type = JointTypeFixed -> mJointAxis joint = sv_zero)).
Proof.
  assert (Hrev : forall joint_axis : Vector3d F,
             cardinal joint_axis ->
             Joint_ctor JointTypeRevolute joint_axis
             = Ok (mkJoint
                     (SV (vec3 joint_axis 0) (vec3 joint_axis 1) (vec3 joint_axis 2)
                        0 0 0)
                     JointTypeRevolute)).
  { intros joint_axis Hcard. apply cardinal_eqb in Hcard.
    unfold Joint_ctor. cbn. rewrite Hcard. reflexivity. }
  split; [exact Hrev |]. split; [reflexivity |].
  intros joint_type joint_axis joint Hok.
  destruct joint_type; [discriminate Hok | |].
  - injection Hok as <-. repeat split; intros; try discriminate; reflexivity.
  - destruct (Vector3d_eqb joint_axis (V3 1 0 0)
              || Vector3d_eqb joint_axis (V3 0 1 0)
              || Vector3d_eqb joint_axis (V3 0 0 1)) eqn:E.
    + apply cardinal_eqb in E. rewrite (Hrev _ E) in Hok. injection Hok as <-.
      repeat split; intros; try discriminate; try reflexivity; exact E.
    + unfold Joint_ctor in Hok. cbn in Hok. rewrite E in Hok. discriminate Hok.
Qed.

Lemma sm_quad_zero (x : SpatialVector F) : sm_quad sm_zero x = 0.
Proof. destruct x. la_compute. ring. Qed.

(** C9: [Body()] has mass 1, the centre of mass at the origin and the
    zero spatial inertia; [Body(1, (0,0,0), gyration_radii)] has the
    identity as lower-right block, so the two differ, and the zero
    matrix is not positive definite. *)
Theorem Body_default_inertia_inconsistent :
  mMass (Body_default (F := F)) = 1
  /\ mCenterOfMass (Body_default (F := F)) = V3 0 0 0
  /\ mSpatialInertia (Body_default (F := F)) = sm_zero
  /\ (forall gyration_radii : Vector3d F,
        sm_block (mSpatialInertia (Body_ctor 1 (V3 0 0 0) gyration_radii)) 1 1
        = m3_identity
        /\ mSpatialInertia (Body_default (F := F))
           <> mSpatialInertia (Body_ctor 1 (V3 0 0 0) gyration_radii))
  /\ ~ sm_positive_definite (mSpatialInertia (Body_default (F := F))).
Proof.
  pose proof s1_neq_s0 as Hne.
  repeat split.
  - intros Heq.
    apply (f_equal (fun m => sm_at m 3 3)) in Heq. cbn in Heq. congruence.
  - intros Hpd.
    assert (Hx : SV 1 0 0 0 0 0 <> sv_zero (F := F)).
    { intros [= Heq]. contradiction. }
    specialize (Hpd _ Hx). change (mSpatialInertia Body_default) with (sm_zero (F := F)) in Hpd.
    rewrite sm_quad_zero, sltb_irrefl in Hpd. discriminate Hpd.
Qed.

End Exact.

(** C1 (amended): in whatever arithmetic, the spatial inertia
    [Body(mass, com, gyration_radii)] stores has the parallel-axis form
    entry by entry: [mass] along the diagonal of the lower-right block and
    zeros beside it, [mass * com_cross] as upper-right block, its
    transpose as lower-left block, and the entries of
    [mass * com_cross * transpose(com_cross)] in the upper-left block with
    the gyration radii added along its diagonal.  In exact arithmetic the
    matrix is symmetric, and these blocks are the matrices [mass * 1] and
    [diag(gyration_radii) + mass * com_cross * transpose(com_cross)].  No
    other constructor and no write to the mass or the centre of mass
    derives the matrix. *)
Theorem Body_ctor_parallel_axis_form (mass : F) (com gyration_radii : Vector3d F) :
  let I := mSpatialInertia (Body_ctor mass com gyration_radii) in
  let com_cross := cross_matrix com in
  let pa := m3_mul (m3_scale mass com_cross) (m3_transpose com_cross) in
  (sm_block I 1 1 = Matrix3d_ctor mass 0 0 0 mass 0 0 0 mass
   /\ sm_block I 0 1 = m3_scale mass com_cross
   /\ sm_block I 1 0 = m3_transpose (sm_block I 0 1)
   /\ sm_block I 0 0
      = Matrix3d_ctor
          (vec3 gyration_radii 0 + mat3 pa 0 0) (mat3 pa 0 1) (mat3 pa 0 2)
          (mat3 pa 1 0) (vec3 gyration_radii 1 + mat3 pa 1 1) (mat3 pa 1 2)
          (mat3 pa 2 0) (mat3 pa 2 1) (vec3 gyration_radii 2 + mat3 pa 2 2))
  /\ (ExactScalar F ->
      sm_symmetric I
      /\ sm_block I 1 1 = m3_scale mass m3_identity
      /\ sm_block I 0 0 = m3_add (m3_diag gyration_radii) pa)
  /\ mSpatialInertia (Body_default (F := F)) = sm_zero
  /\ (forall body : Body F, mSpatialInertia (Body_copy body) = mSpatialInertia body)
  /\ (forall (body : Body F) (m : F) (c : Vector3d F),
        mSpatialInertia (Body_set_mMass m (Body_set_mCenterOfMass c body))
        = mSpatialInertia body).
Proof.
  cbv zeta. split; [| split].
  - destruct com as [c0 c1 c2], gyration_radii as [g0 g1 g2].
    repeat split; reflexivity.
  - intros Hexact. apply Body_ctor_exact_form.
  - repeat split; reflexivity.
Qed.

(** C10: between two live objects the statements of [Body::operator=]
    make the target equal to the source, and leave the store as it is
    when both are the same object; but on every path the call then
    reaches the closing brace of a function declared to return [Body&]
    with no return statement, so the call has no defined outcome, whereas
    the assignment operators of [Joint] and [Contact] return [*this]. *)
Theorem Body_assign_flows_off_end
    (this body : addr) (h : gmap addr (Body F)) (target source : Body F) :
  h !! this = Some target ->
  h !! body = Some source ->
  Body_assign_statements this body h
  = Some (if bool_decide (this = body) then h else <[this := source]> h)
  /\ Body_assign this body h = None
  /\ (forall (hj hj' : gmap addr (Joint F)) (joint : addr) (r : Returned),
        Joint_assign this joint hj = Some (hj', r) -> r = ReturnsThis this)
  /\ (forall (hc hc' : gmap addr (Contact F)) (contact : addr) (r : Returned),
        Contact_assign this contact hc = Some (hc', r) -> r = ReturnsThis this).
Proof.
  intros Hthis Hbody.
  assert (Hstmts : Body_assign_statements this body h
                   = Some (if bool_decide (this = body) then h
                           else <[this := source]> h)).
  { unfold Body_assign_statements. rewrite Hthis, Hbody. cbn.
    destruct (decide (this = body)) as [-> | Hne].
    + rewrite bool_decide_eq_false_2 by (intros Hc; apply Hc; reflexivity).
      rewrite bool_decide_eq_true_2 by reflexivity. reflexivity.
    + rewrite bool_decide_eq_true_2 by exact Hne.
      rewrite (bool_decide_eq_false_2 _ Hne).
      rewrite lookup_alter_ne, Hbody by exact Hne. cbn.
      rewrite !lookup_alter_ne, Hbody by exact Hne. cbn.
      f_equal.
      apply map_eq. intros k. destruct (decide (this = k)) as [<- | Hk].
      * rewrite !lookup_alter_eq, lookup_insert_eq, Hthis. cbn.
        destruct source. reflexivity.
      * rewrite !lookup_alter_ne, lookup_insert_ne by exact Hk. reflexivity. }
  split; [exact Hstmts |]. split; [| split].
  - unfold Body_assign. rewrite Hstmts. reflexivity.
  - intros hj hj' joint r. unfold Joint_assign.
    destruct (hj !! this); [| discriminate]. cbn.
    destruct (hj !! joint) as [src |] eqn:Ej; [| discriminate]. cbn.
    destruct (bool_decide (this <> joint)) eqn:Ed.
    + apply bool_decide_eq_true_1 in Ed.
      cbn. rewrite lookup_alter_ne by exact Ed. rewrite Ej. cbn.
      intros [= _ <-]. reflexivity.
    + intros [= _ <-]. reflexivity.
  - intros hc hc' contact r. unfold Contact_assign.
    destruct (hc !! this); [| discriminate]. cbn.
    destruct (hc !! contact) as [src |] eqn:Ec; [| discriminate]. cbn.
    destruct (bool_decide (this <> contact)) eqn:Ed.
    + apply bool_decide_eq_true_1 in Ed.
      cbn. rewrite lookup_alter_ne by exact Ed. rewrite Ec. cbn.
      intros [= _ <-]. reflexivity.
    + intros [= _ <-]. reflexivity.
Qed.

End BodyJointProperties.

(** ** jcalc *)

Section JcalcProperties.
Context {F : Type} `{Scalar F} `{Trig F} `{!ExactScalar F} `{!ExactTrig F}.
Local Open Scope scalar_scope.
Add Ring scalar_ring_jcalc : scalar_ring.

Ltac scalar_trig q :=
  first [ ring | etransitivity; [| apply (trig_unit q)]; ring ].
Ltac trig_ring q :=
  la_compute;
  first [ scalar_trig q
        | f_equal; scalar_trig q
        | f_equal; f_equal; scalar_trig q ].

Lemma rotx_rotation (q : F) : rotation_about (V3 1 0 0) q (rotx q).
Proof. repeat split; trig_ring q. Qed.

Lemma roty_rotation (q : F) : rotation_about (V3 0 1 0) q (roty q).
Proof. repeat split; trig_ring q. Qed.

Lemma rotz_rotation (q : F) : rotation_about (V3 0 0 1) q (rotz q).
Proof. repeat split; trig_ring q. Qed.

Lemma sv_eqb_neq (a b : SpatialVector F) : a <> b -> sv_eqb a b = false.
Proof.
  intros Hne. destruct (sv_eqb a b) eqn:E; [| reflexivity].
  apply sv_eqb_eq in E. contradiction.
Qed.

Lemma rot_about_x (q : F) : rot_about (SV 1 0 0 0 0 0) q = Some (rotx q).
Proof.
  unfold rot_about. rewrite (proj2 (sv_eqb_eq _ _) eq_refl). reflexivity.
Qed.

Lemma rot_about_y (q : F) : rot_about (SV 0 1 0 0 0 0) q = Some (roty q).
Proof.
  pose proof s1_neq_s0 as Hne.
  unfold rot_about. rewrite sv_eqb_neq by (intros [= Heq]; congruence).
  rewrite (proj2 (sv_eqb_eq _ _) eq_refl). reflexivity.
Qed.

Lemma rot_about_z (q : F) : rot_about (SV 0 0 1 0 0 0) q = Some (rotz q).
Proof.
  pose proof s1_neq_s0 as Hne.
  unfold rot_about. rewrite !sv_eqb_neq by (intros [= Heq]; congruence).
  rewrite (proj2 (sv_eqb_eq _ _) eq_refl). reflexivity.
Qed.

(** C4: for the joint stored under the id, [jcalc] returns, when it is
    Revolute on the unit axis x, y or z, the spatial matrix written out
    below, which rotates coordinates by [q] about that axis and does not
    translate, the stored axis as [S], [S * qdot] as [v_J], which is
    [qdot] in the slot of the axis, and zero as [c_J]; the 3x3 matrix on
    its diagonal is a proper rotation that leaves the axis in place.
    When the joint is Fixed it returns the identity and three zero
    vectors, and for any other type it fails. *)
Theorem jcalc_by_joint_type
    (model : Model.t F) (joint_id : nat) (q qdot : F) (joint : Joint F) :
  Model.mJoints model !! joint_id = Some joint ->
  match mJointType joint with
  | JointTypeRevolute =>
      (mJointAxis joint = SV 1 0 0 0 0 0 ->
       jcalc model joint_id q qdot
       = Ok (SpatialMatrix_set
               1 0 0 0 0 0
               0 (scos q) (ssin q) 0 0 0
               0 (- ssin q) (scos q) 0 0 0
               0 0 0 1 0 0
               0 0 0 0 (scos q) (ssin q)
               0 0 0 0 (- ssin q) (scos q),
             SV 1 0 0 0 0 0, SV qdot 0 0 0 0 0, SV 0 0 0 0 0 0))
      /\ (mJointAxis joint = SV 0 1 0 0 0 0 ->
          jcalc model joint_id q qdot
          = Ok (SpatialMatrix_set
                  (scos q) 0 (- ssin q) 0 0 0
                  0 1 0 0 0 0
                  (ssin q) 0 (scos q) 0 0 0
                  0 0 0 (scos q) 0 (- ssin q)
                  0 0 0 0 1 0
                  0 0 0 (ssin q) 0 (scos q),
                SV 0 1 0 0 0 0, SV 0 qdot 0 0 0 0, SV 0 0 0 0 0 0))
      /\ (mJointAxis joint = SV 0 0 1 0 0 0 ->
          jcalc model joint_id q qdot
          = Ok (SpatialMatrix_set
                  (scos q) (ssin q) 0 0 0 0
                  (- ssin q) (scos q) 0 0 0 0
                  0 0 1 0 0 0
                  0 0 0 (scos q) (ssin q) 0
                  0 0 0 (- ssin q) (scos q) 0
                  0 0 0 0 0 1,
                SV 0 0 1 0 0 0, SV 0 0 qdot 0 0 0, SV 0 0 0 0 0 0))
      /\ (forall axis : Vector3d F,
            cardinal axis ->
            mJointAxis joint = SV (vec3 axis 0) (vec3 axis 1) (vec3 axis 2) 0 0 0 ->
            exists XJ : SpatialMatrix F,
              jcalc model joint_id q qdot
              = Ok (XJ, mJointAxis joint, sv_scale (mJointAxis joint) qdot,
                    SV 0 0 0 0 0 0)
              /\ rotation_about axis q (sm_block XJ 0 0)
              /\ sm_block XJ 1 1 = sm_block XJ 0 0
              /\ sm_block XJ 0 1 = Matrix3d_ctor 0 0 0 0 0 0 0 0 0
              /\ sm_block XJ 1 0 = Matrix3d_ctor 0 0 0 0 0 0 0 0 0)
  | JointTypeFixed =>
      jcalc model joint_id q qdot
      = Ok (SpatialMatrix_set
              1 0 0 0 0 0
              0 1 0 0 0 0
              0 0 1 0 0 0
              0 0 0 1 0 0
              0 0 0 0 1 0
              0 0 0 0 0 1,
            SV 0 0 0 0 0 0, SV 0 0 0 0 0 0, SV 0 0 0 0 0 0)
  | JointTypeUndefined =>
      jcalc model joint_id q qdot = Err UnsupportedJoint
  end.
Proof.
  intros Hjoint. unfold jcalc. rewrite Hjoint.
  destruct (mJointType joint); [reflexivity | reflexivity |].
  split; [| split; [| split]].
  - intros ->. rewrite rot_about_x. la_compute. do 3 f_equal. f_equal; ring.
  - intros ->. rewrite rot_about_y. la_compute. do 3 f_equal. f_equal; ring.
  - intros ->. rewrite rot_about_z. la_compute. do 3 f_equal. f_equal; ring.
  - intros axis [-> | [-> | ->]] Haxis; rewrite Haxis;
      cbn [vec3 v3_0 v3_1 v3_2].
    + rewrite rot_about_x. eexists. split; [reflexivity |].
      split; [exact (rotx_rotation q) |]. repeat split; reflexivity.
    + rewrite rot_about_y. eexists. split; [reflexivity |].
      split; [exact (roty_rotation q) |]. repeat split; reflexivity.
    + rewrite rot_about_z. eexists. split; [reflexivity |].
      split; [exact (rotz_rotation q) |]. repeat split; reflexivity.
Qed.

End JcalcProperties.

(** ** Runs on the rationals and on binary64 *)

Lemma Qc_quarter_turn : scos 1%Qc = 0%Qc /\ ssin 1%Qc = 1%Qc.
Proof.
  split; apply Qc_is_canon; vm_compute; reflexivity.
Qed.

Lemma Body_ctor_parallel_axis_form_witness :
  ExactScalar Qc
  /\ (let I := mSpatialInertia
                 (Body_ctor (Q2Qc (2 # 1)) (V3 1%Qc (Q2Qc (2 # 1)) (Q2Qc (3 # 1)))
                    (V3 1 1 1)%Qc) in
      let com_cross := cross_matrix (V3 1%Qc (Q2Qc (2 # 1)) (Q2Qc (3 # 1))) in
      sm_symmetric I
      /\ sm_block I 1 1 = m3_scale (Q2Qc (2 # 1)) m3_identity
      /\ sm_block I 0 1 = m3_scale (Q2Qc (2 # 1)) com_cross
      /\ sm_block I 1 0 = m3_transpose (sm_block I 0 1)
      /\ sm_block I 0 0
         = m3_add (m3_diag (V3 1 1 1)%Qc)
             (m3_mul (m3_scale (Q2Qc (2 # 1)) com_cross) (m3_transpose com_cross))).
Proof.
  split; [exact Qc_exact |].
  destruct (@Body_ctor_parallel_axis_form Qc _ (Q2Qc (2 # 1))
              (V3 1%Qc (Q2Qc (2 # 1)) (Q2Qc (3 # 1))) (V3 1 1 1)%Qc)
    as ((_ & Hur & Hll & _) & Hexact & _).
  destruct (Hexact Qc_exact) as (Hsym & Hlr & Hul).
  cbv zeta. auto.
Defined.

(** C1, as stated, fails on binary64: for
    [Body(0.1, (0.1, 0.2, 0.3), (1, 1, 1))] the entries (0,2) and (2,0) of
    the stored matrix are [(0.1 * 0.1) * 0.3] and [(0.1 * 0.3) * 0.1]
    rounded, which differ in the last place, so the matrix is not
    symmetric. *)
Lemma Body_ctor_binary64_not_symmetric :
  PrimFloat.eqb (sm_at (mSpatialInertia tenth_body) 0 2)
    (sm_at (mSpatialInertia tenth_body) 2 0) = false
  /\ ~ sm_symmetric (mSpatialInertia tenth_body).
Proof.
  split; [vm_compute; reflexivity |].
  intros Hsym. unfold sm_symmetric in Hsym.
  apply (f_equal (fun m => PrimFloat.eqb (sm_at m 0 2)
                             (sm_at (mSpatialInertia tenth_body) 0 2))) in Hsym.
  vm_compute in Hsym. discriminate Hsym.
Qed.

Lemma Joint_ctor_rejects_invalid_witness :
  ExactScalar Qc
  /\ invalid_joint_input JointTypeUndefined (V3 1 0 0)%Qc
  /\ Joint_ctor JointTypeUndefined (V3 1 0 0)%Qc = Err InvalidConstruction
  /\ Joint_ctor JointTypeRevolute (V3 1 1 0)%Qc = Err InvalidConstruction.
Proof.
  split; [exact Qc_exact |].
  assert (Hinv : invalid_joint_input JointTypeUndefined (V3 1 0 0)%Qc).
  { left. split; discriminate. }
  split; [exact Hinv |].
  destruct (@Joint_ctor_rejects_invalid Qc _ Qc_exact) as [Hgen Hone].
  split; [apply Hgen; exact Hinv | exact Hone].
Defined.

Lemma Joint_ctor_stored_axis_witness :
  ExactScalar Qc
  /\ cardinal (V3 0 0 1)%Qc
  /\ Joint_ctor JointTypeRevolute (V3 0 0 1)%Qc = Ok revolute_z
  /\ Joint_ctor JointTypeFixed (V3 1%Qc (Q2Qc (2 # 1)) (Q2Qc (3 # 1))) = Ok fixed_joint.
Proof.
  split; [exact Qc_exact |].
  assert (Hcard : cardinal (V3 0 0 1)%Qc) by (right; right; reflexivity).
  split; [exact Hcard |].
  destruct (@Joint_ctor_stored_axis Qc _ Qc_exact) as (Hrev & Hfix & _).
  split; [exact (Hrev _ Hcard) | exact (Hfix _)].
Defined.

Lemma Body_default_inertia_inconsistent_witness :
  ExactScalar Qc
  /\ mMass (Body_default (F := Qc)) = 1%Qc
  /\ mSpatialInertia (Body_default (F := Qc)) <> mSpatialInertia unit_body
  /\ ~ sm_positive_definite (mSpatialInertia (Body_default (F := Qc))).
Proof.
  split; [exact Qc_exact |].
  destruct (@Body_default_inertia_inconsistent Qc _ Qc_exact)
    as (Hmass & _ & _ & Hctor & Hpd).
  split; [exact Hmass |].
  split; [exact (proj2 (Hctor (V3 1 1 1)%Qc)) | exact Hpd].
Defined.

Lemma Body_assign_flows_off_end_witness :
  two_bodies !! 0%nat = Some Body_default
  /\ two_bodies !! 1%nat = Some unit_body
  /\ Body_assign_statements 0 1 two_bodies = Some (<[0%nat := unit_body]> two_bodies)
  /\ Body_assign 0 1 two_bodies = None.
Proof.
  assert (H0 : two_bodies !! 0%nat = Some Body_default).
  { apply lookup_insert_eq. }
  assert (H1 : two_bodies !! 1%nat = Some unit_body).
  { unfold two_bodies. rewrite lookup_insert_ne by discriminate. apply lookup_insert_eq. }
  split; [exact H0 |]. split; [exact H1 |].
  destruct (Body_assign_flows_off_end 0 1 two_bodies _ _ H0 H1) as (Hs & Hn & _).
  split; [exact Hs | exact Hn].
Defined.

Lemma jcalc_by_joint_type_witness :
  ExactScalar Qc
  /\ ExactTrig Qc
  /\ Model.mJoints (one_body_model unit_body revolute_z) !! 1%nat = Some revolute_z
  /\ mJointAxis revolute_z = SV 0%Qc 0%Qc 1%Qc 0%Qc 0%Qc 0%Qc
  /\ jcalc (one_body_model unit_body revolute_z) 1 1%Qc 1%Qc
     = Ok (SpatialMatrix_set
             0%Qc 1%Qc 0%Qc 0%Qc 0%Qc 0%Qc
             (- 1)%Qc 0%Qc 0%Qc 0%Qc 0%Qc 0%Qc
             0%Qc 0%Qc 1%Qc 0%Qc 0%Qc 0%Qc
             0%Qc 0%Qc 0%Qc 0%Qc 1%Qc 0%Qc
             0%Qc 0%Qc 0%Qc (- 1)%Qc 0%Qc 0%Qc
             0%Qc 0%Qc 0%Qc 0%Qc 0%Qc 1%Qc,
           SV 0%Qc 0%Qc 1%Qc 0%Qc 0%Qc 0%Qc,
           SV 0%Qc 0%Qc 1%Qc 0%Qc 0%Qc 0%Qc,
           SV 0%Qc 0%Qc 0%Qc 0%Qc 0%Qc 0%Qc).
Proof.
  split; [exact Qc_exact |]. split; [exact Qc_exact_trig |].
  split; [reflexivity |]. split; [reflexivity |].
  pose proof (@jcalc_by_joint_type Qc _ _ Qc_exact Qc_exact_trig
                (one_body_model unit_body revolute_z) 1 1%Qc 1%Qc revolute_z eq_refl)
    as Hcases.
  destruct Hcases as (_ & _ & Hz & _).
  specialize (Hz eq_refl).
  destruct Qc_quarter_turn as [Hcos Hsin].
  rewrite Hcos, Hsin in Hz. exact Hz.
Defined.

(** * Further properties *)

(** ** The spatial inertia of a constructed body *)

Section InertiaProperties.
Context {F : Type} `{Scalar F} `{!ExactScalar F}.
Local Open Scope scalar_scope.
Add Ring scalar_ring_inertia : scalar_ring.

(** X1: the spatial inertia [Body(mass, com, gyration_radii)] stores maps
    a spatial velocity to the spatial momentum of a body with that mass
    at [com]: the linear part is the mass times the velocity of [com],
    and the angular part is the rotational term plus the moment of the
    linear part about the origin. *)
Theorem Body_ctor_momentum
    (mass : F) (com gyration_radii : Vector3d F) (x : SpatialVector F) :
  sm_mul_sv (mSpatialInertia (Body_ctor mass com gyration_radii)) x
  = sv_of
      (v3_add (m3_mul_v3 (m3_diag gyration_radii) (sv_ang x))
         (v3_cross com (v3_scale mass (point_velocity com x))))
      (v3_scale mass (point_velocity com x)).
Proof.
  destruct com as [c0 c1 c2], gyration_radii as [g0 g1 g2], x as [x0 x1 x2 x3 x4 x5].
  la_compute. f_equal; ring.
Qed.

(** X2: the quadratic form of the stored spatial inertia is the
    rotational term plus the mass times the squared speed of [com]. *)
Theorem Body_ctor_quadratic_form
    (mass : F) (com gyration_radii : Vector3d F) (x : SpatialVector F) :
  sm_quad (mSpatialInertia (Body_ctor mass com gyration_radii)) x
  = v3_dot (sv_ang x) (m3_mul_v3 (m3_diag gyration_radii) (sv_ang x))
    + mass * v3_dot (point_velocity com x) (point_velocity com x).
Proof.
  destruct com as [c0 c1 c2], gyration_radii as [g0 g1 g2], x as [x0 x1 x2 x3 x4 x5].
  la_compute. ring.
Qed.

(** X3: the upper-left block of the stored spatial inertia is the
    parallel-axis formula in its usual form,
    [diag(gyration_radii) + mass * (|com|^2 * 1 - com * com^T)]. *)
Theorem Body_ctor_parallel_axis_formula (mass : F) (com gyration_radii : Vector3d F) :
  sm_block (mSpatialInertia (Body_ctor mass com gyration_radii)) 0 0
  = m3_add (m3_diag gyration_radii)
      (m3_scale mass
         (m3_sub (m3_scale (v3_dot com com) m3_identity) (v3_outer com com))).
Proof.
  destruct com as [c0 c1 c2], gyration_radii as [g0 g1 g2].
  la_ring.
Qed.

(** X4: with the centre of mass at the origin the stored spatial inertia
    is diagonal, the gyration radii followed by three times the mass. *)
Theorem Body_ctor_com_at_origin (mass : F) (gyration_radii : Vector3d F) :
  mSpatialInertia (Body_ctor mass (V3 0 0 0) gyration_radii)
  = SpatialMatrix_set
      (vec3 gyration_radii 0) 0 0 0 0 0
      0 (vec3 gyration_radii 1) 0 0 0 0
      0 0 (vec3 gyration_radii 2) 0 0 0
      0 0 0 mass 0 0
      0 0 0 0 mass 0
      0 0 0 0 0 mass.
Proof.
  destruct gyration_radii as [g0 g1 g2]. la_ring.
Qed.

End InertiaProperties.

Section InertiaPositivity.
Context {F : Type} `{Scalar F} `{!OrderedScalar F}.
Local Open Scope scalar_scope.
#[local] Existing Instance ordered_exact.
Add Ring scalar_ring_positivity : scalar_ring.

Lemma wsum_positive_or_zero (l : list (F * F)) :
  Forall (fun ky => sltb 0 (fst ky) = true) l ->
  sltb 0 (wsum l) = true \/ (Forall (fun ky => snd ky = 0) l /\ wsum l = 0).
Proof.
  induction l as [| [k y] rest IH]; intros Hk.
  - right. split; [constructor | reflexivity].
  - apply Forall_cons in Hk as [Hk0 Hrest]. cbn in Hk0.
    specialize (IH Hrest). cbn [wsum].
    destruct (y == 0) eqn:Ey.
    + apply seqb_eq in Ey. subst y.
      destruct IH as [Hpos | [Hall Hzero]].
      * left. replace (k * (0 * 0) + wsum rest) with (wsum rest) by ring. exact Hpos.
      * right. split; [constructor; [reflexivity | exact Hall] |].
        rewrite Hzero. ring.
    + left.
      assert (Hy : y <> 0).
      { intros ->. rewrite seqb_refl in Ey. discriminate Ey. }
      assert (Hterm : sltb 0 (k * (y * y)) = true).
      { apply sltb_mul_pos; [exact Hk0 | apply sltb_square_pos; exact Hy]. }
      destruct IH as [Hpos | [_ Hzero]].
      * apply sltb_add_pos; assumption.
      * rewrite Hzero. replace (k * (y * y) + 0) with (k * (y * y)) by ring.
        exact Hterm.
Qed.

(** X5: for a positive mass and positive gyration radii the stored
    spatial inertia is positive definite, wherever the centre of mass
    is. *)
Theorem Body_ctor_positive_definite (mass : F) (com gyration_radii : Vector3d F) :
  sltb 0 mass = true ->
  sltb 0 (vec3 gyration_radii 0) = true ->
  sltb 0 (vec3 gyration_radii 1) = true ->
  sltb 0 (vec3 gyration_radii 2) = true ->
  sm_positive_definite (mSpatialInertia (Body_ctor mass com gyration_radii)).
Proof.
  destruct com as [c0 c1 c2], gyration_radii as [g0 g1 g2].
  cbn [vec3 v3_0 v3_1 v3_2]. intros Hm Hg0 Hg1 Hg2 [x0 x1 x2 x3 x4 x5] Hx.
  set (w0 := x3 + (x1 * c2 - x2 * c1)).
  set (w1 := x4 + (x2 * c0 - x0 * c2)).
  set (w2 := x5 + (x0 * c1 - x1 * c0)).
  assert (Hquad :
    sm_quad (mSpatialInertia (Body_ctor mass (V3 c0 c1 c2) (V3 g0 g1 g2)))
      (SV x0 x1 x2 x3 x4 x5)
    = wsum [(g0, x0); (g1, x1); (g2, x2); (mass, w0); (mass, w1); (mass, w2)]).
  { subst w0 w1 w2. la_compute. ring. }
  rewrite Hquad.
  destruct (wsum_positive_or_zero
              [(g0, x0); (g1, x1); (g2, x2); (mass, w0); (mass, w1); (mass, w2)])
    as [Hpos | [Hall _]].
  - repeat (constructor; [assumption |]). constructor.
  - exact Hpos.
  - exfalso. apply Hx.
    apply Forall_cons in Hall as [E0 Hall]. apply Forall_cons in Hall as [E1 Hall].
    apply Forall_cons in Hall as [E2 Hall]. apply Forall_cons in Hall as [E3 Hall].
    apply Forall_cons in Hall as [E4 Hall]. apply Forall_cons in Hall as [E5 _].
    subst w0 w1 w2. cbn [snd] in *. subst x0 x1 x2.
    assert (Hx3 : x3 = 0).
    { rewrite <- E3. ring. }
    assert (Hx4 : x4 = 0).
    { rewrite <- E4. ring. }
    assert (Hx5 : x5 = 0).
    { rewrite <- E5. ring. }
    rewrite Hx3, Hx4, Hx5. reflexivity.
Qed.

End InertiaPositivity.

(** ** Constructed joints *)

Section JointProperties.
Context {F : Type} `{Scalar F} `{!ExactScalar F}.
Local Open Scope scalar_scope.
Add Ring scalar_ring_joint : scalar_ring.

(** What [Joint(joint_type, joint_axis)] builds, when it builds. *)
Lemma Joint_ctor_Ok (joint_type : JointType) (joint_axis : Vector3d F) (joint : Joint F) :
  Joint_ctor joint_type joint_axis = Ok joint ->
  (joint_type = JointTypeRevolute /\ cardinal joint_axis
   /\ joint = mkJoint (SV (vec3 joint_axis 0) (vec3 joint_axis 1) (vec3 joint_axis 2)
                          0 0 0) JointTypeRevolute)
  \/ (joint_type = JointTypeFixed /\ joint = mkJoint sv_zero JointTypeFixed).
Proof.
  intros Hok. destruct joint_type; [discriminate Hok | |].
  - right. injection Hok as <-. split; reflexivity.
  - left. unfold Joint_ctor in Hok. cbn in Hok.
    destruct (Vector3d_eqb joint_axis (V3 1 0 0)
              || Vector3d_eqb joint_axis (V3 0 1 0)
              || Vector3d_eqb joint_axis (V3 0 0 1)) eqn:E; [| discriminate Hok].
    apply cardinal_eqb in E. injection Hok as <-. auto.
Qed.

Lemma Joint_ctor_cardinal (joint_axis : Vector3d F) :
  cardinal joint_axis ->
  Joint_ctor JointTypeRevolute joint_axis
  = Ok (mkJoint (SV (vec3 joint_axis 0) (vec3 joint_axis 1) (vec3 joint_axis 2) 0 0 0)
          JointTypeRevolute).
Proof.
  intros Hcard. apply cardinal_eqb in Hcard.
  unfold Joint_ctor. cbn. rewrite Hcard. reflexivity.
Qed.

(** X6: a joint the constructor has built is rebuilt by the constructor
    from its own members: the stored type and the angular part of the
    stored axis are accepted and give the same joint again. *)
Theorem Joint_ctor_round_trip
    (joint_type : JointType) (joint_axis : Vector3d F) (joint : Joint F) :
  Joint_ctor joint_type joint_axis = Ok joint ->
  Joint_ctor (mJointType joint) (sv_ang (mJointAxis joint)) = Ok joint.
Proof.
  intros [(-> & Hcard & ->) | (-> & ->)]%Joint_ctor_Ok.
  - destruct joint_axis as [a0 a1 a2].
    exact (Joint_ctor_cardinal (V3 a0 a1 a2) Hcard).
  - reflexivity.
Qed.

(** X7: the axis of a constructed joint has no linear part, and its
    squared length is 1 for a Revolute joint and 0 for a Fixed one; no
    constructed joint has the type [JointTypeUndefined]. *)
Theorem Joint_ctor_axis_normalised
    (joint_type : JointType) (joint_axis : Vector3d F) (joint : Joint F) :
  Joint_ctor joint_type joint_axis = Ok joint ->
  mJointType joint <> JointTypeUndefined
  /\ sv_lin (mJointAxis joint) = V3 0 0 0
  /\ sv_dot (mJointAxis joint) (mJointAxis joint)
     = match mJointType joint with
       | JointTypeRevolute => 1
       | _ => 0
       end.
Proof.
  intros [(-> & Hcard & ->) | (-> & ->)]%Joint_ctor_Ok.
  - split; [discriminate |]. split; [reflexivity |].
    destruct Hcard as [-> | [-> | ->]]; la_compute; ring.
  - split; [discriminate |]. split; [reflexivity |]. la_compute. ring.
Qed.

End JointProperties.

(** ** Assignment operators *)

Section AssignProperties.
Context {F : Type} `{Scalar F}.

Lemma Joint_assign_effect (this joint : addr) (h : gmap addr (Joint F))
    (target source : Joint F) :
  h !! this = Some target ->
  h !! joint = Some source ->
  Joint_assign this joint h
  = Some (if bool_decide (this = joint) then h else <[this := source]> h,
          ReturnsThis this).
Proof.
  intros Hthis Hjoint. unfold Joint_assign. rewrite Hthis, Hjoint. cbn.
  destruct (decide (this = joint)) as [-> | Hne].
  - rewrite bool_decide_eq_false_2 by (intros Hc; apply Hc; reflexivity).
    rewrite bool_decide_eq_true_2 by reflexivity. reflexivity.
  - rewrite bool_decide_eq_true_2 by exact Hne.
    rewrite (bool_decide_eq_false_2 _ Hne).
    rewrite lookup_alter_ne, Hjoint by exact Hne. cbn.
    f_equal. f_equal.
    apply map_eq. intros k. destruct (decide (this = k)) as [<- | Hk].
    + rewrite !lookup_alter_eq, lookup_insert_eq, Hthis. cbn.
      destruct source. reflexivity.
    + rewrite !lookup_alter_ne, lookup_insert_ne by exact Hk. reflexivity.
Qed.

Lemma Contact_assign_effect (this contact : addr) (h : gmap addr (Contact F))
    (target source : Contact F) :
  h !! this = Some target ->
  h !! contact = Some source ->
  Contact_assign this contact h
  = Some (if bool_decide (this = contact) then h else <[this := source]> h,
          ReturnsThis this).
Proof.
  intros Hthis Hcontact. unfold Contact_assign. rewrite Hthis, Hcontact. cbn.
  destruct (decide (this = contact)) as [-> | Hne].
  - rewrite bool_decide_eq_false_2 by (intros Hc; apply Hc; reflexivity).
    rewrite bool_decide_eq_true_2 by reflexivity. reflexivity.
  - rewrite bool_decide_eq_true_2 by exact Hne.
    rewrite (bool_decide_eq_false_2 _ Hne).
    rewrite lookup_alter_ne, Hcontact by exact Hne. cbn.
    f_equal. f_equal.
    apply map_eq. intros k. destruct (decide (this = k)) as [<- | Hk].
    + rewrite !lookup_alter_eq, lookup_insert_eq, Hthis. cbn.
      destruct source. reflexivity.
    + rewrite !lookup_alter_ne, lookup_insert_ne by exact Hk. reflexivity.
Qed.

(** An assignment between live objects leaves the target equal to the
    source, every other object as it was, and the set of objects the
    same. *)
Lemma assigned_store {A : Type} (this src_addr : addr) (h : gmap addr A)
    (target source : A) :
  h !! this = Some target ->
  h !! src_addr = Some source ->
  let h' := if bool_decide (this = src_addr) then h else <[this := source]> h in
  h' !! this = Some source
  /\ dom h' = dom h
  /\ forall k : addr, k <> this -> h' !! k = h !! k.
Proof.
  intros Hthis Hsrc. cbn. destruct (decide (this = src_addr)) as [-> | Hne].
  - rewrite bool_decide_eq_true_2 by reflexivity. auto.
  - rewrite (bool_decide_eq_false_2 _ Hne). split; [apply lookup_insert_eq |].
    split.
    + apply dom_insert_lookup_L. rewrite Hthis. eauto.
    + intros k Hk. apply lookup_insert_ne. congruence.
Qed.

(** X8: [Joint::operator=] between live objects succeeds and returns
    [*this]; afterwards the target equals the source, every other joint
    is as it was, and no object has appeared or gone; this holds for
    self-assignment too. *)
Theorem Joint_assign_postcondition (this joint : addr) (h : gmap addr (Joint F))
    (target source : Joint F) :
  h !! this = Some target ->
  h !! joint = Some source ->
  exists h' : gmap addr (Joint F),
    Joint_assign this joint h = Some (h', ReturnsThis this)
    /\ h' !! this = Some source
    /\ dom h' = dom h
    /\ forall k : addr, k <> this -> h' !! k = h !! k.
Proof.
  intros Hthis Hjoint. eexists. split.
  - apply (Joint_assign_effect this joint h target source); assumption.
  - apply (assigned_store this joint h target source); assumption.
Qed.

(** X9: [Contact::operator=] between live objects succeeds and returns
    [*this]; afterwards the target equals the source, every other contact
    is as it was, and no object has appeared or gone. *)
Theorem Contact_assign_postcondition (this contact : addr) (h : gmap addr (Contact F))
    (target source : Contact F) :
  h !! this = Some target ->
  h !! contact = Some source ->
  exists h' : gmap addr (Contact F),
    Contact_assign this contact h = Some (h', ReturnsThis this)
    /\ h' !! this = Some source
    /\ dom h' = dom h
    /\ forall k : addr, k <> this -> h' !! k = h !! k.
Proof.
  intros Hthis Hcontact. eexists. split.
  - apply (Contact_assign_effect this contact h target source); assumption.
  - apply (assigned_store this contact h target source); assumption.
Qed.

(** X10: the chained assignment [a = b = c] on joints, which uses the
    reference [b = c] returns, leaves [a] and [b] both equal to [c],
    whichever of the three are the same object. *)
Theorem Joint_assign_chain_copies (a b c : addr) (h : gmap addr (Joint F))
    (ja jb source : Joint F) :
  h !! a = Some ja ->
  h !! b = Some jb ->
  h !! c = Some source ->
  Joint_assign_chain a b c h
  = Some (<[a := source]> (<[b := source]> h), ReturnsThis a).
Proof.
  intros Ha Hb Hc. unfold Joint_assign_chain.
  rewrite (Joint_assign_effect b c h jb source Hb Hc). cbn.
  destruct (decide (b = c)) as [-> | Hbc].
  - rewrite bool_decide_eq_true_2 by reflexivity.
    rewrite (Joint_assign_effect a c h ja source Ha Hc).
    rewrite (insert_id h c source Hc).
    destruct (decide (a = c)) as [-> | Hac].
    + rewrite bool_decide_eq_true_2 by reflexivity.
      rewrite (insert_id h c source Hc). reflexivity.
    + rewrite (bool_decide_eq_false_2 _ Hac). reflexivity.
  - rewrite (bool_decide_eq_false_2 _ Hbc).
    assert (Hb' : <[b := source]> h !! b = Some source) by apply lookup_insert_eq.
    destruct (decide (a = b)) as [-> | Hab].
    + rewrite (Joint_assign_effect b b _ source source Hb' Hb').
      rewrite bool_decide_eq_true_2 by reflexivity.
      rewrite insert_insert_eq. reflexivity.
    + assert (Ha' : <[b := source]> h !! a = Some ja).
      { rewrite lookup_insert_ne by congruence. exact Ha. }
      rewrite (Joint_assign_effect a b _ ja source Ha' Hb').
      rewrite (bool_decide_eq_false_2 _ Hab). reflexivity.
Qed.

End AssignProperties.

(** ** A body and the arguments it was built from *)

Section BodyArguments.
Context {F : Type} `{Scalar F}.
Local Open Scope scalar_scope.

(** X12: the mass is stored twice, in [mMass] and along the diagonal of
    the lower-right block; a write of another mass to [mMass] leaves a
    body that no call of [Body(mass, com, gyration_radii)] builds. *)
Theorem Body_set_mMass_leaves_stale_inertia
    (mass mass' mass'' : F) (com com'' gyration_radii gyration_radii'' : Vector3d F) :
  mass' <> mass ->
  Body_ctor mass'' com'' gyration_radii''
  <> Body_set_mMass mass' (Body_ctor mass com gyration_radii).
Proof.
  intros Hne Heq. apply Hne.
  pose proof (f_equal mMass Heq) as Hm.
  pose proof (f_equal (fun b => sm_at (mSpatialInertia b) 3 3) Heq) as Hi.
  cbn in Hm, Hi. congruence.
Qed.

Section Exact.
Context `{!ExactScalar F}.
Add Ring scalar_ring_arguments : scalar_ring.

(** X13: the arguments of [Body(mass, com, gyration_radii)] can be read
    back from the body: the mass and the centre of mass from their
    members, each gyration radius from the diagonal of the upper-left
    block less the parallel-axis term; so two calls that build the same
    body had the same arguments. *)
Theorem Body_ctor_arguments_recovered (mass : F) (com gyration_radii : Vector3d F) :
  let body := Body_ctor mass com gyration_radii in
  let I := mSpatialInertia body in
  let c := mCenterOfMass body in
  gyration_radii
  = V3 (sm_at I 0 0 - mMass body * (vec3 c 1 * vec3 c 1 + vec3 c 2 * vec3 c 2))
       (sm_at I 1 1 - mMass body * (vec3 c 0 * vec3 c 0 + vec3 c 2 * vec3 c 2))
       (sm_at I 2 2 - mMass body * (vec3 c 0 * vec3 c 0 + vec3 c 1 * vec3 c 1))
  /\ forall (mass' : F) (com' gyration_radii' : Vector3d F),
       Body_ctor mass' com' gyration_radii' = body ->
       mass' = mass /\ com' = com /\ gyration_radii' = gyration_radii.
Proof.
  assert (Hrec : forall (m : F) (c g : Vector3d F),
            g = V3 (sm_at (mSpatialInertia (Body_ctor m c g)) 0 0
                    - m * (vec3 c 1 * vec3 c 1 + vec3 c 2 * vec3 c 2))
                   (sm_at (mSpatialInertia (Body_ctor m c g)) 1 1
                    - m * (vec3 c 0 * vec3 c 0 + vec3 c 2 * vec3 c 2))
                   (sm_at (mSpatialInertia (Body_ctor m c g)) 2 2
                    - m * (vec3 c 0 * vec3 c 0 + vec3 c 1 * vec3 c 1))).
  { intros m [c0 c1 c2] [g0 g1 g2]. la_compute. f_equal; ring. }
  split; [apply Hrec |].
  intros mass' com' gyration_radii' Heq.
  assert (Hm : mass' = mass) by exact (f_equal mMass Heq).
  assert (Hc : com' = com) by exact (f_equal mCenterOfMass Heq).
  subst mass' com'. split; [reflexivity |]. split; [reflexivity |].
  rewrite (Hrec mass com gyration_radii'), Heq. symmetry. apply Hrec.
Qed.

End Exact.
End BodyArguments.

(** ** Further runs on the rationals *)

Lemma Qc_ltb_lt (x y : Qc) : Qc_ltb x y = true <-> (x < y)%Qc.
Proof.
  unfold Qc_ltb. rewrite Qclt_alt.
  destruct (x ?= y)%Qc; split; intros Heq; congruence.
Qed.

Lemma Qc_ordered : OrderedScalar Qc.
Proof.
  constructor.
  - exact Qc_exact.
  - intros a b Ha%Qc_ltb_lt Hb%Qc_ltb_lt. apply Qc_ltb_lt.
    apply Qcplus_pos_pos; assumption.
  - intros a b Ha%Qc_ltb_lt Hb%Qc_ltb_lt. apply Qc_ltb_lt.
    apply Qcmult_pos_pos; assumption.
  - intros x Hx. apply Qc_ltb_lt.
    destruct (Qcle_lt_or_eq _ _ (Qc_square_nonneg x)) as [Hlt | Heq]; [exact Hlt |].
    symmetry in Heq. apply Qcmult_integral in Heq as [Heq | Heq]; contradiction.
Qed.

Lemma Body_ctor_momentum_witness :
  ExactScalar Qc
  /\ sm_mul_sv
       (mSpatialInertia
          (Body_ctor (Q2Qc (2 # 1)) (V3 1%Qc (Q2Qc (2 # 1)) (Q2Qc (3 # 1)))
             (V3 1 1 1)%Qc))
       (SV 1 0 0 0 1 0)%Qc
     = sv_of
         (v3_add (m3_mul_v3 (m3_diag (V3 1 1 1)%Qc) (sv_ang (SV 1 0 0 0 1 0)%Qc))
            (v3_cross (V3 1%Qc (Q2Qc (2 # 1)) (Q2Qc (3 # 1)))
               (v3_scale (Q2Qc (2 # 1))
                  (point_velocity (V3 1%Qc (Q2Qc (2 # 1)) (Q2Qc (3 # 1)))
                     (SV 1 0 0 0 1 0)%Qc))))
         (v3_scale (Q2Qc (2 # 1))
            (point_velocity (V3 1%Qc (Q2Qc (2 # 1)) (Q2Qc (3 # 1)))
               (SV 1 0 0 0 1 0)%Qc)).
Proof.
  split; [exact Qc_exact |].
  exact (@Body_ctor_momentum Qc _ Qc_exact (Q2Qc (2 # 1))
           (V3 1%Qc (Q2Qc (2 # 1)) (Q2Qc (3 # 1))) (V3 1 1 1)%Qc (SV 1 0 0 0 1 0)%Qc).
Defined.

Lemma Body_ctor_quadratic_form_witness :
  ExactScalar Qc
  /\ sm_quad
       (mSpatialInertia
          (Body_ctor (Q2Qc (2 # 1)) (V3 1%Qc (Q2Qc (2 # 1)) (Q2Qc (3 # 1)))
             (V3 1 1 1)%Qc))
       (SV 1 0 0 0 1 0)%Qc
     = (v3_dot (sv_ang (SV 1 0 0 0 1 0)%Qc)
          (m3_mul_v3 (m3_diag (V3 1 1 1)%Qc) (sv_ang (SV 1 0 0 0 1 0)%Qc))
        + Q2Qc (2 # 1)
          * v3_dot
              (point_velocity (V3 1%Qc (Q2Qc (2 # 1)) (Q2Qc (3 # 1)))
                 (SV 1 0 0 0 1 0)%Qc)
              (point_velocity (V3 1%Qc (Q2Qc (2 # 1)) (Q2Qc (3 # 1)))
                 (SV 1 0 0 0 1 0)%Qc))%sc.
Proof.
  split; [exact Qc_exact |].
  exact (@Body_ctor_quadratic_form Qc _ Qc_exact (Q2Qc (2 # 1))
           (V3 1%Qc (Q2Qc (2 # 1)) (Q2Qc (3 # 1))) (V3 1 1 1)%Qc (SV 1 0 0 0 1 0)%Qc).
Defined.

Lemma Body_ctor_parallel_axis_formula_witness :
  ExactScalar Qc
  /\ sm_block
       (mSpatialInertia
          (Body_ctor (Q2Qc (2 # 1)) (V3 1%Qc (Q2Qc (2 # 1)) (Q2Qc (3 # 1)))
             (V3 1 1 1)%Qc)) 0 0
     = m3_add (m3_diag (V3 1 1 1)%Qc)
         (m3_scale (Q2Qc (2 # 1))
            (m3_sub
               (m3_scale
                  (v3_dot (V3 1%Qc (Q2Qc (2 # 1)) (Q2Qc (3 # 1)))
                     (V3 1%Qc (Q2Qc (2 # 1)) (Q2Qc (3 # 1))))
                  m3_identity)
               (v3_outer (V3 1%Qc (Q2Qc (2 # 1)) (Q2Qc (3 # 1)))
                  (V3 1%Qc (Q2Qc (2 # 1)) (Q2Qc (3 # 1)))))).
Proof.
  split; [exact Qc_exact |].
  exact (@Body_ctor_parallel_axis_formula Qc _ Qc_exact (Q2Qc (2 # 1))
           (V3 1%Qc (Q2Qc (2 # 1)) (Q2Qc (3 # 1))) (V3 1 1 1)%Qc).
Defined.

Lemma Body_ctor_com_at_origin_witness :
  ExactScalar Qc
  /\ mSpatialInertia (Body_ctor (Q2Qc (2 # 1)) (V3 0 0 0)%Qc (V3 1 1 1)%Qc)
     = SpatialMatrix_set
         1%Qc 0%Qc 0%Qc 0%Qc 0%Qc 0%Qc
         0%Qc 1%Qc 0%Qc 0%Qc 0%Qc 0%Qc
         0%Qc 0%Qc 1%Qc 0%Qc 0%Qc 0%Qc
         0%Qc 0%Qc 0%Qc (Q2Qc (2 # 1)) 0%Qc 0%Qc
         0%Qc 0%Qc 0%Qc 0%Qc (Q2Qc (2 # 1)) 0%Qc
         0%Qc 0%Qc 0%Qc 0%Qc 0%Qc (Q2Qc (2 # 1)).
Proof.
  split; [exact Qc_exact |].
  exact (@Body_ctor_com_at_origin Qc _ Qc_exact (Q2Qc (2 # 1)) (V3 1 1 1)%Qc).
Defined.

Lemma Body_ctor_positive_definite_witness :
  OrderedScalar Qc
  /\ sltb 0%Qc (Q2Qc (2 # 1)) = true
  /\ sltb 0%Qc (vec3 (V3 1 1 1)%Qc 0) = true
  /\ sltb 0%Qc (vec3 (V3 1 1 1)%Qc 1) = true
  /\ sltb 0%Qc (vec3 (V3 1 1 1)%Qc 2) = true
  /\ sm_positive_definite
       (mSpatialInertia
          (Body_ctor (Q2Qc (2 # 1)) (V3 1%Qc (Q2Qc (2 # 1)) (Q2Qc (3 # 1)))
             (V3 1 1 1)%Qc)).
Proof.
  split; [exact Qc_ordered |].
  split; [reflexivity |]. split; [reflexivity |].
  split; [reflexivity |]. split; [reflexivity |].
  apply (@Body_ctor_positive_definite Qc _ Qc_ordered); reflexivity.
Defined.

Lemma Joint_ctor_round_trip_witness :
  ExactScalar Qc
  /\ Joint_ctor JointTypeRevolute (V3 0 0 1)%Qc = Ok revolute_z
  /\ Joint_ctor (mJointType revolute_z) (sv_ang (mJointAxis revolute_z)) = Ok revolute_z.
Proof.
  assert (Hok : Joint_ctor JointTypeRevolute (V3 0 0 1)%Qc = Ok revolute_z).
  { apply (@Joint_ctor_cardinal Qc _ Qc_exact). right; right; reflexivity. }
  split; [exact Qc_exact |]. split; [exact Hok |].
  exact (@Joint_ctor_round_trip Qc _ Qc_exact _ _ _ Hok).
Defined.

Lemma Joint_ctor_axis_normalised_witness :
  ExactScalar Qc
  /\ Joint_ctor JointTypeRevolute (V3 0 0 1)%Qc = Ok revolute_z
  /\ mJointType revolute_z <> JointTypeUndefined
  /\ sv_lin (mJointAxis revolute_z) = V3 0%Qc 0%Qc 0%Qc
  /\ sv_dot (mJointAxis revolute_z) (mJointAxis revolute_z) = 1%Qc.
Proof.
  assert (Hok : Joint_ctor JointTypeRevolute (V3 0 0 1)%Qc = Ok revolute_z).
  { apply (@Joint_ctor_cardinal Qc _ Qc_exact). right; right; reflexivity. }
  split; [exact Qc_exact |]. split; [exact Hok |].
  exact (@Joint_ctor_axis_normalised Qc _ Qc_exact _ _ _ Hok).
Defined.

Lemma Joint_assign_postcondition_witness :
  three_joints !! 0%nat = Some Joint_default
  /\ three_joints !! 2%nat = Some revolute_z
  /\ exists h' : gmap addr (Joint Qc),
       Joint_assign 0 2 three_joints = Some (h', ReturnsThis 0%nat)
       /\ h' !! 0%nat = Some revolute_z
       /\ dom h' = dom three_joints
       /\ forall k : addr, k <> 0%nat -> h' !! k = three_joints !! k.
Proof.
  assert (H0 : three_joints !! 0%nat = Some Joint_default) by apply lookup_insert_eq.
  assert (H2 : three_joints !! 2%nat = Some revolute_z).
  { unfold three_joints. rewrite !lookup_insert_ne by discriminate.
    apply lookup_insert_eq. }
  split; [exact H0 |]. split; [exact H2 |].
  exact (Joint_assign_postcondition 0 2 three_joints _ _ H0 H2).
Defined.

Lemma Contact_assign_postcondition_witness :
  two_contacts !! 0%nat = Some Contact_default
  /\ two_contacts !! 1%nat = Some (Contact_ctor 1 (V3 0%Qc 0%Qc 1%Qc))
  /\ exists h' : gmap addr (Contact Qc),
       Contact_assign 0 1 two_contacts = Some (h', ReturnsThis 0%nat)
       /\ h' !! 0%nat = Some (Contact_ctor 1 (V3 0%Qc 0%Qc 1%Qc))
       /\ dom h' = dom two_contacts
       /\ forall k : addr, k <> 0%nat -> h' !! k = two_contacts !! k.
Proof.
  assert (H0 : two_contacts !! 0%nat = Some Contact_default) by apply lookup_insert_eq.
  assert (H1 : two_contacts !! 1%nat = Some (Contact_ctor 1 (V3 0%Qc 0%Qc 1%Qc))).
  { unfold two_contacts. rewrite lookup_insert_ne by discriminate.
    apply lookup_insert_eq. }
  split; [exact H0 |]. split; [exact H1 |].
  exact (Contact_assign_postcondition 0 1 two_contacts _ _ H0 H1).
Defined.

Lemma Joint_assign_chain_copies_witness :
  three_joints !! 0%nat = Some Joint_default
  /\ three_joints !! 1%nat = Some fixed_joint
  /\ three_joints !! 2%nat = Some revolute_z
  /\ Joint_assign_chain 0 1 2 three_joints
     = Some (<[0%nat := revolute_z]> (<[1%nat := revolute_z]> three_joints),
             ReturnsThis 0%nat).
Proof.
  assert (H0 : three_joints !! 0%nat = Some Joint_default) by apply lookup_insert_eq.
  assert (H1 : three_joints !! 1%nat = Some fixed_joint).
  { unfold three_joints. rewrite lookup_insert_ne by discriminate.
    apply lookup_insert_eq. }
  assert (H2 : three_joints !! 2%nat = Some revolute_z).
  { unfold three_joints. rewrite !lookup_insert_ne by discriminate.
    apply lookup_insert_eq. }
  split; [exact H0 |]. split; [exact H1 |]. split; [exact H2 |].
  exact (Joint_assign_chain_copies 0 1 2 three_joints _ _ _ H0 H1 H2).
Defined.

Lemma Body_set_mMass_leaves_stale_inertia_witness :
  Q2Qc (2 # 1) <> 1%Qc
  /\ Body_ctor (Q2Qc (2 # 1)) (V3 0 0 0)%Qc (V3 1 1 1)%Qc
     <> Body_set_mMass (Q2Qc (2 # 1)) unit_body.
Proof.
  assert (Hne : Q2Qc (2 # 1) <> 1%Qc).
  { intros Heq. apply (f_equal (fun q : Qc => Qnum (this q))) in Heq.
    vm_compute in Heq. discriminate Heq. }
  split; [exact Hne |].
  exact (Body_set_mMass_leaves_stale_inertia 1%Qc (Q2Qc (2 # 1)) (Q2Qc (2 # 1))
           (V3 0 0 0)%Qc (V3 0 0 0)%Qc (V3 1 1 1)%Qc (V3 1 1 1)%Qc Hne).
Defined.

Lemma Body_ctor_arguments_recovered_witness :
  ExactScalar Qc
  /\ forall (mass' : Qc) (com' gyration_radii' : Vector3d Qc),
       Body_ctor mass' com' gyration_radii' = unit_body ->
       mass' = 1%Qc /\ com' = V3 0%Qc 0%Qc 0%Qc /\ gyration_radii' = V3 1%Qc 1%Qc 1%Qc.
Proof.
  split; [exact Qc_exact |].
  exact (proj2 (@Body_ctor_arguments_recovered Qc _ Qc_exact 1%Qc
                  (V3 0 0 0)%Qc (V3 1 1 1)%Qc)).
Defined.
